(** * Secret Santa generator: a shallow embedding of [generate_secret_santa.py]

    The Python module draws a derangement of a list of names by
    shuffling and rejecting ([generate_matches]), derives a file name from
    a name ([generate_filename], [generate_random_string]) and renders one
    page per participant from an f-string ([create_individual_page]).

    Python values are modelled as follows.
    - A [str] is the list of its Unicode code points.
    - A [list] object lives in a store and is named by its address, so that
      [participants.copy()] and the in-place [random.shuffle(receivers)] can
      be told apart from the caller's list.
    - The [dict] returned by [generate_matches] is a finite map.
    - The [random] module is an interface ([Random]) over an abstract
      generator state; its documented behaviour is the class [RandomLaws].
    - The Unicode character database used by [unicodedata] and [str.lower]
      is an interface ([UnicodeData]). *)

From Stdlib Require Import NArith Ascii String.
From stdpp Require Import gmap list strings pretty.

Local Open Scope N_scope.

(** ** Strings *)

Abbreviation codepoint := N (only parsing).
Abbreviation str := (list N) (only parsing).

(** The bytes of a source literal. *)
Definition bytes_of (s : string) : list N :=
  map N_of_ascii (list_ascii_of_string s).

(** The source file is UTF-8; a literal denotes the code points its bytes
    decode to. *)
Fixpoint utf8_decode (bs : list N) : str :=
  match bs with
  | [] => []
  | b0 :: r0 =>
    if b0 <? 0x80 then b0 :: utf8_decode r0
    else
      match r0 with
      | [] => []
      | b1 :: r1 =>
        if b0 <? 0xE0 then
          N.lor (N.shiftl (N.land b0 0x1F) 6) (N.land b1 0x3F) :: utf8_decode r1
        else
          match r1 with
          | [] => []
          | b2 :: r2 =>
            if b0 <? 0xF0 then
              N.lor (N.shiftl (N.land b0 0x0F) 12)
                (N.lor (N.shiftl (N.land b1 0x3F) 6) (N.land b2 0x3F))
              :: utf8_decode r2
            else
              match r2 with
              | [] => []
              | b3 :: r3 =>
                N.lor (N.shiftl (N.land b0 0x07) 18)
                  (N.lor (N.shiftl (N.land b1 0x3F) 12)
                     (N.lor (N.shiftl (N.land b2 0x3F) 6) (N.land b3 0x3F)))
                :: utf8_decode r3
              end
          end
      end
  end.

(** The double quote cannot be written inside a literal of this file; the
    literals below write a backquote for it.  The Python source contains no
    backquote, so the reading is unambiguous. *)
Definition restore_quote (c : codepoint) : codepoint :=
  if c =? 0x60 then 0x22 else c.

(** [py "..."] is the value of the Python literal ["..."]. *)
Definition py (s : string) : str :=
  map restore_quote (utf8_decode (bytes_of s)).

(** ** The [random] module *)

(** [shuffle x g] is the content of the list [x] after [random.shuffle(x)]
    run from generator state [g], with the state it leaves; [choice seq g]
    is the element picked by [random.choice(seq)] for a non-empty [seq]. *)
Class Random (G : Type) := {
  shuffle : list str → G → list str * G;
  choice : str → G → codepoint * G
}.

(** What the library documents: a shuffle reorders, a choice picks an
    element of the sequence. *)
Class RandomLaws (G : Type) `{Random G} := {
  shuffle_perm : ∀ (x : list str) (g : G), (shuffle x g).1 ≡ₚ x;
  choice_elem : ∀ (seq : str) (g : G), seq ≠ [] → (choice seq g).1 ∈ seq
}.

(** ** Store, exceptions and the monad of effects *)

Abbreviation loc := nat (only parsing).

Inductive exn :=
| Exception_ (message : str)  (* [raise Exception(message)] *)
| IndexError                  (* a list or sequence index out of range *)
| SystemError.                (* an address that names no object; no Python
                                 program holds one *)

Inductive outcome (A : Type) :=
| Return (a : A)
| Raise (e : exn).
Arguments Return {A} a.
Arguments Raise {A} e.

(** [heap]: the list objects, by address.  [rng]: the state of the module
    generator.  [shuffles]: a ghost counter of the [random.shuffle] calls
    made so far. *)
Record state (G : Type) := State {
  heap : list (list str);
  rng : G;
  shuffles : nat
}.
Arguments State {G} heap rng shuffles.
Arguments heap {G} s.
Arguments rng {G} s.
Arguments shuffles {G} s.

Definition M (G A : Type) : Type := state G → outcome A * state G.

Definition ret {G A} (a : A) : M G A := λ σ, (Return a, σ).

Definition raise {G A} (e : exn) : M G A := λ σ, (Raise e, σ).

Definition bind {G A B} (m : M G A) (k : A → M G B) : M G B :=
  λ σ, match m σ with
       | (Return a, σ') => k a σ'
       | (Raise e, σ') => (Raise e, σ')
       end.

Notation "'let!' x ':=' m 'in' k" := (bind m (λ x, k))
  (at level 10, x name, m at level 100, k at level 200,
   format "'[v' 'let!'  x  ':='  m  'in'  '/' k ']'").
Notation "'do!' m 'in' k" := (bind m (λ _, k))
  (at level 10, m at level 100, k at level 200,
   format "'[v' 'do!'  m  'in'  '/' k ']'").

Section Effects.
Context {G : Type} `{Random G}.

(** [x.copy()]: a new list object with the elements of [x]. *)
Definition list_copy (x : loc) : M G loc :=
  λ σ, match heap σ !! x with
       | Some l => (Return (length (heap σ)),
                    State (heap σ ++ [l]) (rng σ) (shuffles σ))
       | None => (Raise SystemError, σ)
       end.

(** [list(x)], the elements a [for] loop over [x] visits when its body
    leaves [x] alone. *)
Definition list_items (x : loc) : M G (list str) :=
  λ σ, match heap σ !! x with
       | Some l => (Return l, σ)
       | None => (Raise SystemError, σ)
       end.

(** [x[i]] *)
Definition list_getitem (x : loc) (i : nat) : M G str :=
  λ σ, match heap σ !! x with
       | Some l => match l !! i with
                   | Some v => (Return v, σ)
                   | None => (Raise IndexError, σ)
                   end
       | None => (Raise SystemError, σ)
       end.

(** [random.shuffle(x)]: [x] is rewritten in place. *)
Definition random_shuffle (x : loc) : M G unit :=
  λ σ, match heap σ !! x with
       | Some l =>
         let '(l', g') := shuffle l (rng σ) in
         (Return (), State (<[x := l']> (heap σ)) g' (S (shuffles σ)))
       | None => (Raise SystemError, σ)
       end.

(** [random.choice(seq)] *)
Definition random_choice (seq : str) : M G codepoint :=
  λ σ, match seq with
       | [] => (Raise IndexError, σ)
       | _ :: _ =>
         let '(c, g') := choice seq (rng σ) in
         (Return c, State (heap σ) g' (shuffles σ))
       end.
End Effects.

(** ** [generate_matches] *)

Section Matcher.
Context {G : Type} `{Random G}.

(** <<
    valid = True
    for i, giver in enumerate(givers):
        if giver == receivers[i]:
            valid = False
            break
    >> *)
Fixpoint check_valid (receivers : loc) (i : nat) (givers : list str)
  : M G bool :=
  match givers with
  | [] => ret true
  | giver :: rest =>
    let! r := list_getitem receivers i in
    if decide (giver = r) then ret false
    else check_valid receivers (S i) rest
  end.

(** <<
    for i, giver in enumerate(givers):
        matches[giver] = receivers[i]
    >> *)
Fixpoint fill_matches (receivers : loc) (i : nat) (givers : list str)
    (matches : gmap str str) : M G (gmap str str) :=
  match givers with
  | [] => ret matches
  | giver :: rest =>
    let! r := list_getitem receivers i in
    fill_matches receivers (S i) rest (<[giver := r]> matches)
  end.

Definition max_attempts : nat := 1000.

(** ["Could not generate valid matching after {} attempts".format(n)] *)
Definition exhausted_message (n : nat) : str :=
  py "Could not generate valid matching after " ++ py (pretty n)
    ++ py " attempts".

(** The [for attempt in range(max_attempts)] loop with [n] iterations
    left, and the [raise] after it. *)
Fixpoint attempts (n : nat) (receivers givers : loc)
    (matches : gmap str str) : M G (gmap str str) :=
  match n with
  | O => raise (Exception_ (exhausted_message max_attempts))
  | S n' =>
    do! random_shuffle receivers in
    let! gs := list_items givers in
    let! valid := check_valid receivers 0 gs in
    if valid then
      let! gs' := list_items givers in
      fill_matches receivers 0 gs' matches
    else attempts n' receivers givers matches
  end.

Definition generate_matches (participants : loc) : M G (gmap str str) :=
  let! receivers := list_copy participants in
  let! givers := list_copy participants in
  let matches := ∅ in
  attempts max_attempts receivers givers matches.
End Matcher.

(** ** [generate_random_string] *)

Section Token.
Context {G : Type} `{Random G}.

(** [string.ascii_lowercase + string.digits] *)
Definition characters : str := py "abcdefghijklmnopqrstuvwxyz" ++ py "0123456789".

(** [''.join(random.choice(characters) for _ in range(length))] *)
Fixpoint generate_random_string (length : nat) : M G str :=
  match length with
  | O => ret []
  | S length' =>
    let! c := random_choice characters in
    let! cs := generate_random_string length' in
    ret (c :: cs)
  end.
End Token.

(** ** [generate_filename] *)

(** The three library operations [generate_filename] calls:
    [unicodedata.normalize('NFD', s)], [unicodedata.category(c)] and
    [s.lower()]. *)
Class UnicodeData := {
  normalize_NFD : str → str;
  category : codepoint → str;
  lower : str → str
}.

(** [s.replace(old, new)] for one-character [old] and [new]. *)
Definition replace_char (old new : codepoint) (s : str) : str :=
  map (λ c, if c =? old then new else c) s.

Definition generate_filename {U : UnicodeData} (name : str) : str :=
  let nfd := normalize_NFD name in
  let without_accents := filter (λ c, category c ≠ py "Mn") nfd in
  let filename_base := replace_char 0x20 0x2D (lower without_accents) in
  filename_base.

(** ** f-strings *)

(** A compiled f-string: literal characters and replacement fields that
    name a local variable. *)
Inductive piece :=
| Text (c : codepoint)
| Field (name : str).

(** Compilation of the literal: [{{] and [}}] stand for one brace,
    [{name}] is a field.  [field] holds the reversed name of the field
    being read, if any; a lone or unclosed brace is a syntax error. *)
Fixpoint fstring_compile (field : option str) (s : str) : option (list piece) :=
  match field, s with
  | None, [] => Some []
  | Some _, [] => None
  | Some name, c :: rest =>
    if c =? 0x7D then (Field (reverse name) ::.) <$> fstring_compile None rest
    else fstring_compile (Some (c :: name)) rest
  | None, c :: rest =>
    if c =? 0x7B then
      match rest with
      | c' :: rest' =>
        if c' =? 0x7B then (Text 0x7B ::.) <$> fstring_compile None rest'
        else fstring_compile (Some []) rest
      | [] => None
      end
    else if c =? 0x7D then
      match rest with
      | c' :: rest' =>
        if c' =? 0x7D then (Text 0x7D ::.) <$> fstring_compile None rest'
        else None
      | [] => None
      end
    else (Text c ::.) <$> fstring_compile None rest
  end.

(** The value of a local variable, if bound. *)
Fixpoint local (locals : list (str * str)) (name : str) : option str :=
  match locals with
  | [] => None
  | (n, v) :: locals' => if decide (n = name) then Some v else local locals' name
  end.

(** Evaluation: the pieces are formatted in order and joined; an unbound
    name fails (a [NameError]). *)
Fixpoint fstring_eval (ps : list piece) (locals : list (str * str)) : option str :=
  match ps with
  | [] => Some []
  | Text c :: ps' => (c ::.) <$> fstring_eval ps' locals
  | Field name :: ps' =>
    v ← local locals name; s ← fstring_eval ps' locals; Some (v ++ s)
  end.

Definition fstring (literal : str) (locals : list (str * str)) : option str :=
  ps ← fstring_compile None literal; fstring_eval ps locals.

(** A triple-quoted literal, line by line. *)
Fixpoint py_lines (ls : list string) : str :=
  match ls with
  | [] => []
  | [l] => py l
  | l :: ls' => py l ++ 0x0A :: py_lines ls'
  end.

(** ** [create_individual_page] *)

(** The literal of the f-string, lines 86 to 344 of the source. *)
Definition individual_page_literal : list string := [
  "<!DOCTYPE html>";
  "<html lang=`fr`>";
  "<head>";
  "    <meta charset=`UTF-8`>";
  "    <meta name=`viewport` content=`width=device-width, initial-scale=1.0`>";
  "    <title>Secret Santa - La Famillia</title>";
  "    <style>";
  "        * {{";
  "            margin: 0;";
  "            padding: 0;";
  "            box-sizing: border-box;";
  "        }}";
  "";
  "        body {{";
  "            font-family: 'Georgia', serif;";
  "            background: linear-gradient(135deg, #1a472a 0%, #2d5a3d 50%, #1a472a 100%);";
  "            min-height: 100vh;";
  "            display: flex;";
  "            justify-content: center;";
  "            align-items: center;";
  "            padding: 20px;";
  "            position: relative;";
  "            overflow-x: hidden;";
  "        }}";
  "";
  "        /* Snowflakes animation */";
  "        .snowflake {{";
  "            position: absolute;";
  "            top: -10px;";
  "            color: white;";
  "            font-size: 1em;";
  "            font-family: Arial, sans-serif;";
  "            text-shadow: 0 0 5px #fff;";
  "            animation: fall linear infinite;";
  "        }}";
  "";
  "        @keyframes fall {{";
  "            to {{";
  "                transform: translateY(100vh);";
  "            }}";
  "        }}";
  "";
  "        .container {{";
  "            background: white;";
  "            border-radius: 20px;";
  "            padding: 40px;";
  "            max-width: 600px;";
  "            width: 100%;";
  "            box-shadow: 0 20px 60px rgba(0, 0, 0, 0.3);";
  "            text-align: center;";
  "            position: relative;";
  "            z-index: 1;";
  "        }}";
  "";
  "        .header {{";
  "            margin-bottom: 30px;";
  "        }}";
  "";
  "        h1 {{";
  "            color: #c41e3a;";
  "            font-size: 2.5em;";
  "            margin-bottom: 10px;";
  "            text-shadow: 2px 2px 4px rgba(0, 0, 0, 0.1);";
  "        }}";
  "";
  "        .greeting {{";
  "            font-size: 1.3em;";
  "            color: #2d5a3d;";
  "            margin-bottom: 30px;";
  "        }}";
  "";
  "        .reveal-section {{";
  "            margin: 40px 0;";
  "        }}";
  "";
  "        .reveal-button {{";
  "            background: linear-gradient(135deg, #c41e3a 0%, #a01729 100%);";
  "            color: white;";
  "            border: none;";
  "            padding: 20px 40px;";
  "            font-size: 1.3em;";
  "            border-radius: 50px;";
  "            cursor: pointer;";
  "            transition: all 0.3s ease;";
  "            box-shadow: 0 4px 15px rgba(196, 30, 58, 0.4);";
  "            font-weight: bold;";
  "        }}";
  "";
  "        .reveal-button:hover {{";
  "            transform: translateY(-2px);";
  "            box-shadow: 0 6px 20px rgba(196, 30, 58, 0.6);";
  "        }}";
  "";
  "        .reveal-button:active {{";
  "            transform: translateY(0);";
  "        }}";
  "";
  "        .revealed {{";
  "            display: none;";
  "            margin-top: 30px;";
  "            padding: 30px;";
  "            background: linear-gradient(135deg, #fff9e6 0%, #ffe6cc 100%);";
  "            border-radius: 15px;";
  "            border: 3px solid #c41e3a;";
  "        }}";
  "";
  "        .revealed.show {{";
  "            display: block;";
  "            animation: fadeIn 0.5s ease;";
  "        }}";
  "";
  "        @keyframes fadeIn {{";
  "            from {{";
  "                opacity: 0;";
  "                transform: scale(0.9);";
  "            }}";
  "            to {{";
  "                opacity: 1;";
  "                transform: scale(1);";
  "            }}";
  "        }}";
  "";
  "        .receiver-name {{";
  "            font-size: 2em;";
  "            color: #c41e3a;";
  "            font-weight: bold;";
  "            margin: 20px 0;";
  "        }}";
  "";
  "        .info-section {{";
  "            margin-top: 40px;";
  "            padding: 25px;";
  "            background: #f8f9fa;";
  "            border-radius: 10px;";
  "            text-align: left;";
  "        }}";
  "";
  "        .info-section h2 {{";
  "            color: #2d5a3d;";
  "            margin-bottom: 15px;";
  "            font-size: 1.5em;";
  "        }}";
  "";
  "        .info-item {{";
  "            margin: 10px 0;";
  "            padding: 10px;";
  "            background: white;";
  "            border-radius: 5px;";
  "            border-left: 4px solid #c41e3a;";
  "        }}";
  "";
  "        .info-item strong {{";
  "            color: #2d5a3d;";
  "        }}";
  "";
  "        .rules {{";
  "            margin-top: 20px;";
  "        }}";
  "";
  "        .rules ul {{";
  "            list-style: none;";
  "            padding-left: 0;";
  "        }}";
  "";
  "        .rules li {{";
  "            padding: 10px;";
  "            margin: 8px 0;";
  "            background: white;";
  "            border-radius: 5px;";
  "            border-left: 4px solid #2d5a3d;";
  "        }}";
  "";
  "        .rules li::before {{";
  "            content: `🎁 `;";
  "            margin-right: 10px;";
  "        }}";
  "";
  "        .decoration {{";
  "            font-size: 3em;";
  "            margin: 10px 0;";
  "        }}";
  "    </style>";
  "</head>";
  "<body>";
  "    <!-- Snowflakes -->";
  "    <script>";
  "        // Generate snowflakes";
  "        for (let i = 0; i < 20; i++) {{";
  "            let snowflake = document.createElement('div');";
  "            snowflake.className = 'snowflake';";
  "            snowflake.innerHTML = '❄';";
  "            snowflake.style.left = Math.random() * 100 + '%';";
  "            snowflake.style.animationDuration = (Math.random() * 3 + 2) + 's';";
  "            snowflake.style.animationDelay = Math.random() * 5 + 's';";
  "            snowflake.style.opacity = Math.random();";
  "            snowflake.style.fontSize = (Math.random() * 10 + 10) + 'px';";
  "            document.body.appendChild(snowflake);";
  "        }}";
  "    </script>";
  "";
  "    <div class=`container`>";
  "        <div class=`header`>";
  "            <div class=`decoration`>🎄 ⭐ 🎄</div>";
  "            <h1>Secret Santa</h1>";
  "            <h2 style=`color: #2d5a3d; margin-top: 10px;`>La Famillia 2025</h2>";
  "        </div>";
  "";
  "        <p class=`greeting`>Bonjour <strong>{giver}</strong> !</p>";
  "";
  "        <div class=`reveal-section`>";
  "            <button class=`reveal-button` onclick=`revealSecretSanta()`>";
  "                🎁 Découvre ton Secret Santa 🎁";
  "            </button>";
  "";
  "            <div class=`revealed` id=`revealed`>";
  "                <div class=`decoration`>🎅 🎁 🎅</div>";
  "                <p style=`font-size: 1.2em; color: #2d5a3d;`>Tu dois offrir un cadeau à :</p>";
  "                <div class=`receiver-name`>{receiver}</div>";
  "                <div class=`decoration`>✨ 🌟 ✨</div>";
  "            </div>";
  "        </div>";
  "";
  "        <div class=`info-section`>";
  "            <h2>📅 Informations</h2>";
  "            <div class=`info-item`>";
  "                <strong>Date :</strong> 25 décembre 2025 (soir)";
  "            </div>";
  "            <div class=`info-item`>";
  "                <strong>Lieu :</strong> Les Quinaux";
  "            </div>";
  "";
  "            <div class=`rules`>";
  "                <h2 style=`margin-top: 25px;`>📜 Règles</h2>";
  "                <ul>";
  "                    <li>Cadeau à moins de 50€</li>";
  "                    <li>Le jour même : pense à bien avoir écrit le nom sur le papier cadeau</li>";
  "                    <li>Si tu as une idée de cadeau, n'hésite pas à en faire part à tes proches qui pourraient être contactés pour savoir ce qui te ferait plaisir</li>";
  "                </ul>";
  "            </div>";
  "        </div>";
  "";
  "        <div style=`margin-top: 30px; color: #888; font-size: 0.9em;`>";
  "            <p>🎄 Joyeux Noël et bon Secret Santa ! 🎄</p>";
  "        </div>";
  "    </div>";
  "";
  "    <script>";
  "        function revealSecretSanta() {{";
  "            const revealed = document.getElementById('revealed');";
  "            revealed.classList.add('show');";
  "";
  "            // Optionally hide the button after reveal";
  "            const button = document.querySelector('.reveal-button');";
  "            button.style.display = 'none';";
  "        }}";
  "    </script>";
  "    <div style=`position: fixed; bottom: 5px; right: 10px; font-size: 10px; color: #999; opacity: 0.5;`>v1.0.1</div>";
  "</body>";
  "</html>"
].

Definition create_individual_page (giver receiver random_string : str)
  : option str :=
  let html :=
    fstring (py_lines individual_page_literal)
      [(py "giver", giver); (py "receiver", receiver);
       (py "random_string", random_string)] in
  html.

(** ** [main] *)

Definition PARTICIPANTS : list str := [
  py "Annie";
  py "Jacques";
  py "Vincent";
  py "Nathalie";
  py "Grégoire";
  py "Aroldo";
  py "Laurence";
  py "Patrick";
  py "Arthur";
  py "Mathilde";
  py "Quentin";
  py "Clémence";
  py "Axel";
  py "Julien";
  py "Aurélie";
  py "Oscar";
  py "Jeanne";
  py "Léon"
].

Section Main.
Context {G : Type} `{Random G} {U : UnicodeData}.

(** One iteration of [for giver, receiver in matches.items()]: the name
    of the file written and its content.
    <<
    random_string = generate_random_string()
    filename_base = generate_filename(giver)
    filename = f"{filename_base}-{random_string}.html"
    html_content = create_individual_page(giver, receiver, random_string)
    >> *)
Definition main_page (giver receiver : str) : M G (str * option str) :=
  let! random_string := generate_random_string 8 in
  let filename_base := generate_filename giver in
  let filename := filename_base ++ py "-" ++ random_string ++ py ".html" in
  let html_content := create_individual_page giver receiver random_string in
  ret (filename, html_content).
End Main.

(** ** A replayed random source *)

(** A generator whose state is the tape of the draws still to come.  The
    two operations follow CPython's [random.py], where both are written
    over [_randbelow]. *)
Module Tape.

(** [_randbelow(n)]: the next draw, reduced below [n]; [0] once the tape
    is used up. *)
Definition randbelow (n : nat) (tape : list nat) : nat * list nat :=
  match tape with
  | [] => (O, [])
  | d :: tape' => (d mod n, tape')%nat
  end.

(** [x[i], x[j] = x[j], x[i]] *)
Definition swap (i j : nat) (x : list str) : list str :=
  match x !! i, x !! j with
  | Some xi, Some xj => <[j := xi]> (<[i := xj]> x)
  | _, _ => x
  end.

(** <<
    for i in reversed(range(1, len(x))):
        j = randbelow(i + 1)
        x[i], x[j] = x[j], x[i]
    >>
    [fisher_yates n x tape] runs the iterations [i = n, ..., 1]. *)
Fixpoint fisher_yates (n : nat) (x : list str) (tape : list nat)
  : list str * list nat :=
  match n with
  | O => (x, tape)
  | S n' =>
    let '(j, tape') := randbelow (S n) tape in
    fisher_yates n' (swap n j x) tape'
  end.

#[export] Instance random : Random (list nat) := {
  shuffle x tape := fisher_yates (length x - 1) x tape;
  choice seq tape :=
    let '(j, tape') := randbelow (length seq) tape in
    (nth j seq 0, tape')
}.

End Tape.

(** ** The Unicode database below U+0100 *)

(** The character data of Basic Latin and Latin-1 Supplement, with the
    combining marks their decompositions use.  On a string whose code
    points are all below U+0100 the three operations are those of Unicode;
    other code points are left alone and reported unassigned. *)
Module Latin1.

Definition decomposition (c : codepoint) : str :=
  match c with
  | 0xC0 => [0x41; 0x300]
  | 0xC1 => [0x41; 0x301]
  | 0xC2 => [0x41; 0x302]
  | 0xC3 => [0x41; 0x303]
  | 0xC4 => [0x41; 0x308]
  | 0xC5 => [0x41; 0x30A]
  | 0xC7 => [0x43; 0x327]
  | 0xC8 => [0x45; 0x300]
  | 0xC9 => [0x45; 0x301]
  | 0xCA => [0x45; 0x302]
  | 0xCB => [0x45; 0x308]
  | 0xCC => [0x49; 0x300]
  | 0xCD => [0x49; 0x301]
  | 0xCE => [0x49; 0x302]
  | 0xCF => [0x49; 0x308]
  | 0xD1 => [0x4E; 0x303]
  | 0xD2 => [0x4F; 0x300]
  | 0xD3 => [0x4F; 0x301]
  | 0xD4 => [0x4F; 0x302]
  | 0xD5 => [0x4F; 0x303]
  | 0xD6 => [0x4F; 0x308]
  | 0xD9 => [0x55; 0x300]
  | 0xDA => [0x55; 0x301]
  | 0xDB => [0x55; 0x302]
  | 0xDC => [0x55; 0x308]
  | 0xDD => [0x59; 0x301]
  | 0xE0 => [0x61; 0x300]
  | 0xE1 => [0x61; 0x301]
  | 0xE2 => [0x61; 0x302]
  | 0xE3 => [0x61; 0x303]
  | 0xE4 => [0x61; 0x308]
  | 0xE5 => [0x61; 0x30A]
  | 0xE7 => [0x63; 0x327]
  | 0xE8 => [0x65; 0x300]
  | 0xE9 => [0x65; 0x301]
  | 0xEA => [0x65; 0x302]
  | 0xEB => [0x65; 0x308]
  | 0xEC => [0x69; 0x300]
  | 0xED => [0x69; 0x301]
  | 0xEE => [0x69; 0x302]
  | 0xEF => [0x69; 0x308]
  | 0xF1 => [0x6E; 0x303]
  | 0xF2 => [0x6F; 0x300]
  | 0xF3 => [0x6F; 0x301]
  | 0xF4 => [0x6F; 0x302]
  | 0xF5 => [0x6F; 0x303]
  | 0xF6 => [0x6F; 0x308]
  | 0xF9 => [0x75; 0x300]
  | 0xFA => [0x75; 0x301]
  | 0xFB => [0x75; 0x302]
  | 0xFC => [0x75; 0x308]
  | 0xFD => [0x79; 0x301]
  | 0xFF => [0x79; 0x308]
  | _ => [c]
  end.

(** General categories below U+0100, as runs: each entry gives the last
    code point of a run and the category of the run. *)
Definition category_runs : list (codepoint * string) := [
  (0x1F, "Cc"); (0x20, "Zs"); (0x23, "Po"); (0x24, "Sc"); (0x27, "Po");
  (0x28, "Ps"); (0x29, "Pe"); (0x2A, "Po"); (0x2B, "Sm"); (0x2C, "Po");
  (0x2D, "Pd"); (0x2F, "Po"); (0x39, "Nd"); (0x3B, "Po"); (0x3E, "Sm");
  (0x40, "Po"); (0x5A, "Lu"); (0x5B, "Ps"); (0x5C, "Po"); (0x5D, "Pe");
  (0x5E, "Sk"); (0x5F, "Pc"); (0x60, "Sk"); (0x7A, "Ll"); (0x7B, "Ps");
  (0x7C, "Sm"); (0x7D, "Pe"); (0x7E, "Sm"); (0x9F, "Cc"); (0xA0, "Zs");
  (0xA1, "Po"); (0xA5, "Sc"); (0xA6, "So"); (0xA7, "Po"); (0xA8, "Sk");
  (0xA9, "So"); (0xAA, "Lo"); (0xAB, "Pi"); (0xAC, "Sm"); (0xAD, "Cf");
  (0xAE, "So"); (0xAF, "Sk"); (0xB0, "So"); (0xB1, "Sm"); (0xB3, "No");
  (0xB4, "Sk"); (0xB5, "Ll"); (0xB7, "Po"); (0xB8, "Sk"); (0xB9, "No");
  (0xBA, "Lo"); (0xBB, "Pf"); (0xBE, "No"); (0xBF, "Po"); (0xD6, "Lu");
  (0xD7, "Sm"); (0xDE, "Lu"); (0xF6, "Ll"); (0xF7, "Sm"); (0xFF, "Ll")
]%string.

Fixpoint category_in (runs : list (codepoint * string)) (c : codepoint)
  : string :=
  match runs with
  | [] => if (0x300 <=? c) && (c <=? 0x36F) then "Mn"%string else "Cn"%string
  | (last, cat) :: runs' => if c <=? last then cat else category_in runs' c
  end.

Definition lower_char (c : codepoint) : codepoint :=
  if (0x41 <=? c) && (c <=? 0x5A) then c + 0x20
  else if (0xC0 <=? c) && (c <=? 0xDE) && negb (c =? 0xD7) then c + 0x20
  else c.

#[export] Instance unicode_data : UnicodeData := {
  normalize_NFD s := flat_map decomposition s;
  category c := py (category_in category_runs c);
  lower s := map lower_char s
}.

End Latin1.

(** ** Substrings *)

(** [needle in hay] *)
Definition substring (needle hay : str) : Prop :=
  ∃ before after, hay = before ++ needle ++ after.

Fixpoint starts_with (needle hay : str) : bool :=
  match needle, hay with
  | [], _ => true
  | _ :: _, [] => false
  | c :: needle', d :: hay' => (c =? d) && starts_with needle' hay'
  end.

Fixpoint contains (needle hay : str) : bool :=
  starts_with needle hay ||
  match hay with
  | [] => false
  | _ :: hay' => contains needle hay'
  end.

(** The number of places where [needle] occurs in [hay]. *)
Fixpoint occurrences (needle hay : str) : nat :=
  ((if starts_with needle hay then 1 else 0) +
   match hay with
   | [] => 0
   | _ :: hay' => occurrences needle hay'
   end)%nat.

(** ** What the loops of [generate_matches] compute *)

(** The loops read the two lists through the store; over the contents of
    the lists they are the following functions.  [search] also returns
    the final content of [receivers], the generator state and the number
    of shuffles. *)
Section Summary.
Context {G : Type} `{Random G}.

Fixpoint valid (i : nat) (givers receivers : list str) : outcome bool :=
  match givers with
  | [] => Return true
  | giver :: rest =>
    match receivers !! i with
    | Some r =>
      if decide (giver = r) then Return false
      else valid (S i) rest receivers
    | None => Raise IndexError
    end
  end.

Fixpoint filled (i : nat) (givers receivers : list str)
    (matches : gmap str str) : outcome (gmap str str) :=
  match givers with
  | [] => Return matches
  | giver :: rest =>
    match receivers !! i with
    | Some r => filled (S i) rest receivers (<[giver := r]> matches)
    | None => Raise IndexError
    end
  end.

Fixpoint search (n : nat) (givers receivers : list str)
    (matches : gmap str str) (g : G)
  : outcome (gmap str str) * list str * G * nat :=
  match n with
  | O => (Raise (Exception_ (exhausted_message max_attempts)), receivers, g, O)
  | S n' =>
    let '(receivers', g') := shuffle receivers g in
    match valid 0 givers receivers' with
    | Return true => (filled 0 givers receivers' matches, receivers', g', 1%nat)
    | Return false =>
      let '(o, r, g'', k) := search n' givers receivers' matches g' in
      (o, r, g'', S k)
    | Raise e => (Raise e, receivers', g', 1%nat)
    end
  end.

(** The first [n] candidates the generator produces from [x]: each
    shuffle starts from the order the previous one left. *)
Fixpoint candidates (n : nat) (x : list str) (g : G) : list (list str) :=
  match n with
  | O => []
  | S n' => let '(x', g') := shuffle x g in x' :: candidates n' x' g'
  end.
End Summary.

(** Some giver faces their own name in the candidate. *)
Definition has_self_match (givers receivers : list str) : bool :=
  existsb (λ '(giver, r), bool_decide (giver = r)) (zip givers receivers).

(** [random.seed(...)]: the generator is put in state [g]. *)
Definition reseed {G} (g : G) (σ : state G) : state G :=
  State (heap σ) g (shuffles σ).

(** ** Character classes *)



(** [c in string.ascii_lowercase + string.digits] *)
Definition is_lower_alnum (c : codepoint) : bool :=
  ((0x61 <=? c) && (c <=? 0x7A)) || ((0x30 <=? c) && (c <=? 0x39)).



(** ** The page around its two fields *)

(** The literal text a compiled f-string starts with, and what follows
    its first field. *)
Fixpoint leading_text (ps : list piece) : str :=
  match ps with
  | Text c :: ps' => c :: leading_text ps'
  | _ => []
  end.

Fixpoint after_field (ps : list piece) : list piece :=
  match ps with
  | [] => []
  | Text _ :: ps' => after_field ps'
  | Field _ :: ps' => ps'
  end.

Definition page_pieces : list piece :=
  default [] (fstring_compile None (py_lines individual_page_literal)).

Definition page_head : str := leading_text page_pieces.
Definition page_mid : str := leading_text (after_field page_pieces).
Definition page_tail : str :=
  leading_text (after_field (after_field page_pieces)).

(** What is computed about a name and the text of the page: the name is
    not empty, has no angle bracket, occurs nowhere in the literal text,
    and occurs in no other participant's name. *)
Definition name_check (name : str) : bool :=
  (negb (bool_decide (name = [])))
  && (negb (existsb (N.eqb 0x3C) name)) && (negb (existsb (N.eqb 0x3E) name))
  && Nat.eqb (occurrences name page_head) 0
  && Nat.eqb (occurrences name page_mid) 0
  && Nat.eqb (occurrences name page_tail) 0
  && forallb (λ other,
       Nat.eqb (occurrences name other)
         (if bool_decide (name = other) then 1 else 0)) PARTICIPANTS.

(** ** Sample runs on the replayed source *)

(** Three participants, and a tape whose first shuffle is the identity
    and whose second yields C, A, B. *)
Definition three : list str := [py "A"; py "B"; py "C"].
Definition st_three : state (list nat) := State [three] [2; 1; 1; 0]%nat 0.
Definition matches_three : gmap str str :=
  {[py "A" := py "C"; py "B" := py "A"; py "C" := py "B"]}.
Definition st_three' : state (list nat) :=
  State [three; [py "C"; py "A"; py "B"]; three] [] 2.

(** Two participants, with a tape on which every shuffle is the identity
    and with a tape whose first shuffle swaps them. *)
Definition two : list str := [py "A"; py "B"].
Definition st_identity : state (list nat) :=
  State [two] (repeat 1%nat 1000) 0.
Definition st_two : state (list nat) := State [two] [0]%nat 0.

(** ** [create_landing_page] *)

(** The literal, lines 352 to 489 of the source. *)
Definition landing_page_literal : list string := [
  "<!DOCTYPE html>";
  "<html lang=`fr`>";
  "<head>";
  "    <meta charset=`UTF-8`>";
  "    <meta name=`viewport` content=`width=device-width, initial-scale=1.0`>";
  "    <title>Secret Santa - La Famillia 2025</title>";
  "    <style>";
  "        * {";
  "            margin: 0;";
  "            padding: 0;";
  "            box-sizing: border-box;";
  "        }";
  "";
  "        body {";
  "            font-family: 'Georgia', serif;";
  "            background: linear-gradient(135deg, #1a472a 0%, #2d5a3d 50%, #1a472a 100%);";
  "            min-height: 100vh;";
  "            display: flex;";
  "            justify-content: center;";
  "            align-items: center;";
  "            padding: 20px;";
  "            position: relative;";
  "            overflow-x: hidden;";
  "        }";
  "";
  "        /* Snowflakes animation */";
  "        .snowflake {";
  "            position: absolute;";
  "            top: -10px;";
  "            color: white;";
  "            font-size: 1em;";
  "            font-family: Arial, sans-serif;";
  "            text-shadow: 0 0 5px #fff;";
  "            animation: fall linear infinite;";
  "        }";
  "";
  "        @keyframes fall {";
  "            to {";
  "                transform: translateY(100vh);";
  "            }";
  "        }";
  "";
  "        .container {";
  "            background: white;";
  "            border-radius: 20px;";
  "            padding: 60px 40px;";
  "            max-width: 600px;";
  "            width: 100%;";
  "            box-shadow: 0 20px 60px rgba(0, 0, 0, 0.3);";
  "            text-align: center;";
  "            position: relative;";
  "            z-index: 1;";
  "        }";
  "";
  "        h1 {";
  "            color: #c41e3a;";
  "            font-size: 3em;";
  "            margin-bottom: 20px;";
  "            text-shadow: 2px 2px 4px rgba(0, 0, 0, 0.1);";
  "        }";
  "";
  "        h2 {";
  "            color: #2d5a3d;";
  "            font-size: 1.8em;";
  "            margin-bottom: 30px;";
  "        }";
  "";
  "        .decoration {";
  "            font-size: 4em;";
  "            margin: 20px 0;";
  "        }";
  "";
  "        .message {";
  "            font-size: 1.2em;";
  "            color: #555;";
  "            line-height: 1.8;";
  "            margin: 30px 0;";
  "        }";
  "";
  "        .info-box {";
  "            background: #f8f9fa;";
  "            padding: 25px;";
  "            border-radius: 10px;";
  "            margin-top: 30px;";
  "            border-left: 5px solid #c41e3a;";
  "        }";
  "";
  "        .info-box p {";
  "            color: #333;";
  "            font-size: 1.1em;";
  "            margin: 10px 0;";
  "        }";
  "    </style>";
  "</head>";
  "<body>";
  "    <!-- Snowflakes -->";
  "    <script>";
  "        // Generate snowflakes";
  "        for (let i = 0; i < 20; i++) {";
  "            let snowflake = document.createElement('div');";
  "            snowflake.className = 'snowflake';";
  "            snowflake.innerHTML = '❄';";
  "            snowflake.style.left = Math.random() * 100 + '%';";
  "            snowflake.style.animationDuration = (Math.random() * 3 + 2) + 's';";
  "            snowflake.style.animationDelay = Math.random() * 5 + 's';";
  "            snowflake.style.opacity = Math.random();";
  "            snowflake.style.fontSize = (Math.random() * 10 + 10) + 'px';";
  "            document.body.appendChild(snowflake);";
  "        }";
  "    </script>";
  "";
  "    <div class=`container`>";
  "        <div class=`decoration`>🎄 ⭐ 🎄</div>";
  "        <h1>Secret Santa</h1>";
  "        <h2>La Famillia 2025</h2>";
  "";
  "        <p class=`message`>";
  "            Bienvenue au Secret Santa de La Famillia !";
  "        </p>";
  "";
  "        <div class=`decoration`>🎅 🎁 🎅</div>";
  "";
  "        <div class=`info-box`>";
  "            <p><strong>📅 Date :</strong> 25 décembre 2025 (soir)</p>";
  "            <p><strong>📍 Lieu :</strong> Les Quinaux</p>";
  "        </div>";
  "";
  "        <p class=`message` style=`margin-top: 30px; font-size: 1em; color: #888;`>";
  "            Tu as normalement reçu un lien personnalisé, si tu ne l'as pas contacte Julien : <a href=`mailto:julien@terraz.org` style=`color: #c41e3a; text-decoration: none;`>julien@terraz.org</a>";
  "        </p>";
  "";
  "        <div class=`decoration` style=`font-size: 2em; margin-top: 30px;`>";
  "            ✨ 🌟 ✨";
  "        </div>";
  "    </div>";
  "    <div style=`position: fixed; bottom: 5px; right: 10px; font-size: 10px; color: #999; opacity: 0.5;`>v1.0.1</div>";
  "</body>";
  "</html>"
].

Definition create_landing_page : str :=
  let html := py_lines landing_page_literal in
  html.

(** ** [main] *)

(** What a run of [main] leaves outside the store: the [write_text]
    calls that succeeded, each with the name it was given, which is a path
    relative to the output directory, and the text written, and the
    [print] calls, each with the text printed (the newline [print] adds is
    left out), both in order.  The text of a page carries the [option] of
    [create_individual_page]. *)
Record output := Output {
  written : list (str * option str);
  printed : list str
}.

(** [main] can fail with an exception of [generate_matches] or of the
    other functions it calls, on a key missing from [url_mapping], or with
    the [OSError] of a [write_text] the file system refuses (a directory
    of the path that does not exist, a name it does not take, no
    permission, no space). *)
Inductive main_exn :=
| Raised (e : exn)
| KeyError (key : str)
| OSError (filename : str).

Inductive main_outcome (A : Type) :=
| Done (a : A)
| Failed (e : main_exn).
Arguments Done {A} a.
Arguments Failed {A} e.

(** The effects of [main]: those of [M], and output, which stays when an
    exception ends the run. *)
Definition IO (G A : Type) : Type :=
  output → state G → main_outcome A * output * state G.

Definition io_ret {G A} (a : A) : IO G A := λ out σ, (Done a, out, σ).

Definition io_fail {G A} (e : main_exn) : IO G A := λ out σ, (Failed e, out, σ).

Definition io_bind {G A B} (m : IO G A) (k : A → IO G B) : IO G B :=
  λ out σ, match m out σ with
           | (Done a, out', σ') => k a out' σ'
           | (Failed e, out', σ') => (Failed e, out', σ')
           end.

Notation "'let*' x ':=' m 'in' k" := (io_bind m (λ x, k))
  (at level 10, x name, m at level 100, k at level 200,
   format "'[v' 'let*'  x  ':='  m  'in'  '/' k ']'").
Notation "'do*' m 'in' k" := (io_bind m (λ _, k))
  (at level 10, m at level 100, k at level 200,
   format "'[v' 'do*'  m  'in'  '/' k ']'").

(** A computation of [M] run inside [main]. *)
Definition lift {G A} (m : M G A) : IO G A :=
  λ out σ, match m σ with
           | (Return a, σ') => (Done a, out, σ')
           | (Raise e, σ') => (Failed (Raised e), out, σ')
           end.

(** [print(text)]; standard output is taken to accept any text. *)
Definition print {G} (text : str) : IO G unit :=
  λ out σ, (Done (), Output (written out) (printed out ++ [text]), σ).

(** [(output_dir / filename).write_text(content, encoding='utf-8')].
    Whether the write succeeds is up to the file system, not to the
    program: [write_ok history (filename, content)] tells if the file
    system takes the write of [content] to [filename] after the writes of
    [history].  A write that succeeds is recorded under the name given;
    which file that path denotes is up to [pathlib] and the file system,
    and is not modelled: two names that differ may denote one file, as
    [./a.html] and [a.html] do.  A write that fails raises, here
    [OSError] with the name, and is not recorded. *)
Definition write_text {G}
    (write_ok : list (str * option str) → str * option str → bool)
    (filename : str) (content : option str) : IO G unit :=
  λ out σ,
    if write_ok (written out) (filename, content)
    then (Done (), Output (written out ++ [(filename, content)]) (printed out),
          σ)
    else (Failed (OSError filename), out, σ).

(** The value [url_mapping] holds for a giver: a dict with the keys
    ["receiver"], ["filename"] and ["url"]. *)
Record url_info := UrlInfo {
  info_receiver : str;
  info_filename : str;
  info_url : str
}.

(** [a < b] on [str]: code point by code point, a proper prefix first. *)
Fixpoint str_lt (a b : str) : bool :=
  match a, b with
  | _, [] => false
  | [], _ :: _ => true
  | c :: a', d :: b' => (c <? d) || ((c =? d) && str_lt a' b')
  end.

(** [sorted(keys)], by insertion. *)
Fixpoint insert_sorted (key : str) (keys : list str) : list str :=
  match keys with
  | [] => [key]
  | k :: keys' =>
    if str_lt k key then k :: insert_sorted key keys' else key :: keys
  end.

Definition sorted (keys : list str) : list str :=
  foldr insert_sorted [] keys.

(** [f"{s:25}"] for [width = 25]: [s] padded with spaces on the right. *)
Definition ljust (width : nat) (s : str) : str :=
  s ++ replicate (width - length s) 0x20.

(** The start of the address of a page. *)
Definition url_prefix : str := py "https://targz.github.io/secret-santa-2025/".

Section MainProgram.
Context {G : Type} `{Random G} {U : UnicodeData}.

(** [items matches] stands for [matches.items()]: the pairs of the dict
    in the order the dict iterates. *)
Variable items : gmap str str → list (str * str).

(** The file system the run writes to. *)
Variable write_ok : list (str * option str) → str * option str → bool.

(** <<
    for giver, receiver in matches.items():
        ...
    >>
    over the pairs still to visit. *)
Fixpoint main_pages (pairs : list (str * str))
    (url_mapping : gmap str url_info) : IO G (gmap str url_info) :=
  match pairs with
  | [] => io_ret url_mapping
  | (giver, receiver) :: rest =>
    let* page := lift (main_page giver receiver) in
    let filename := page.1 in
    let html_content := page.2 in
    let url_mapping :=
      <[giver := UrlInfo receiver filename (url_prefix ++ filename)]>
        url_mapping in
    do* write_text write_ok filename html_content in
    do* print (py "✓ Created: " ++ filename) in
    main_pages rest url_mapping
  end.

(** <<
    for giver in sorted(url_mapping.keys()):
        info = url_mapping[giver]
        print(f"{giver:25} → {info['url']}")
    >>
    over the keys still to visit. *)
Fixpoint main_summary (keys : list str) (url_mapping : gmap str url_info)
  : IO G unit :=
  match keys with
  | [] => io_ret ()
  | giver :: rest =>
    match url_mapping !! giver with
    | None => io_fail (KeyError giver)
    | Some info =>
      do* print (ljust 25 giver ++ py " → " ++ info_url info) in
      main_summary rest url_mapping
    end
  end.

(** [participants] is the address of the list [PARTICIPANTS]. *)
Definition main (participants : loc) : IO G unit :=
  do* print (py "🎄 Secret Santa Generator for La Famillia 🎄" ++ [0x0A]) in
  do* print (py "Generating Secret Santa matches...") in
  let* matches := lift (generate_matches participants) in
  let url_mapping := ∅ in
  do* print (0x0A :: py "Generating HTML pages...") in
  let* url_mapping := main_pages (items matches) url_mapping in
  do* print (0x0A :: py "Creating landing page...") in
  let index_html := create_landing_page in
  do* write_text write_ok (py "index.html") (Some index_html) in
  do* print (py "✓ Created: index.html") in
  do* print (0x0A :: py "⚠️  JSON mapping file generation disabled (to protect existing matches)") in
  do* print (0x0A :: replicate 60 0x3D) in
  do* print (py "✅ Generation complete!") in
  do* print (replicate 60 0x3D) in
  do* print (0x0A :: py "Files generated in current directory:") in
  do* print (py "  - index.html (landing page)") in
  do* print (py "  - " ++ py (pretty (size matches))
               ++ py " individual participant pages") in
  do* print (0x0A :: py "📧 URLs to distribute:") in
  do* print (replicate 60 0x2D) in
  do* main_summary (sorted (map_to_list url_mapping).*1) url_mapping in
  print (0x0A :: py "🎁 Joyeux Noël et bon Secret Santa! 🎁").
End MainProgram.

(** The file [main] writes for a giver, given the token drawn: its name
    and its text. *)
Definition page_file {U : UnicodeData} (giver receiver token : str)
  : str * option str :=
  (generate_filename giver ++ py "-" ++ token ++ py ".html",
   create_individual_page giver receiver token).

(** The file system takes every write [main] can attempt for these
    givers: the file [page_file] gives for a giver, whatever the token of
    8 lowercase letters and digits, and [index.html]. *)
Definition accepts {U : UnicodeData}
    (write_ok : list (str * option str) → str * option str → bool)
    (givers : list str) : Prop :=
  (∀ history giver receiver token,
     giver ∈ givers → length token = 8%nat →
     Forall (λ c, is_lower_alnum c = true) token →
     write_ok history (page_file giver receiver token) = true)
  ∧ ∀ history,
      write_ok history (py "index.html", Some create_landing_page) = true.

(** A file system for the runs below: an output directory without
    subdirectories, which takes a write when the name has no slash. *)
Definition flat_directory (history : list (str * option str))
    (file : str * option str) : bool :=
  bool_decide (0x2F ∉ file.1).

(** The line of the summary for a giver. *)
Definition summary_line (giver filename : str) : str :=
  ljust 25 giver ++ py " → " ++ url_prefix ++ filename.

(** The line printed once a page is written. *)
Definition created_line (filename : str) : str :=
  py "✓ Created: " ++ filename.

(** The files of the pairs, given the tokens drawn for them in turn, and
    what [url_mapping] gets for a pair. *)
Definition page_files {U : UnicodeData} (pairs : list (str * str))
    (tokens : list str) : list (str * option str) :=
  zip_with (λ pair token, page_file pair.1 pair.2 token) pairs tokens.

Definition url_entry {U : UnicodeData} (pair : str * str) (token : str)
  : str * url_info :=
  let filename := (page_file pair.1 pair.2 token).1 in
  (pair.1, UrlInfo pair.2 filename (url_prefix ++ filename)).

(** The line of the summary for a key of [url_mapping]. *)
Definition summary_of (url_mapping : gmap str url_info) (giver : str) : str :=
  match url_mapping !! giver with
  | Some info => ljust 25 giver ++ py " → " ++ info_url info
  | None => []
  end.

(** The lines [main] prints before it calls [generate_matches], before
    the pages, between the pages and the summary (with the number of
    pages), and last. *)
Definition opening_lines : list str :=
  [py "🎄 Secret Santa Generator for La Famillia 🎄" ++ [0x0A]; py "Generating Secret Santa matches..."].

Definition pages_heading : str := 0x0A :: py "Generating HTML pages...".

Definition closing_lines (pages : nat) : list str :=
  [0x0A :: py "Creating landing page...";
   py "✓ Created: index.html";
   0x0A :: py "⚠️  JSON mapping file generation disabled (to protect existing matches)";
   0x0A :: replicate 60 0x3D;
   py "✅ Generation complete!";
   replicate 60 0x3D;
   0x0A :: py "Files generated in current directory:";
   py "  - index.html (landing page)";
   py "  - " ++ py (pretty pages) ++ py " individual participant pages";
   0x0A :: py "📧 URLs to distribute:";
   replicate 60 0x2D].

Definition last_line : str := 0x0A :: py "🎁 Joyeux Noël et bon Secret Santa! 🎁".

(** The participants of the module, in a store of their own, with a tape
    that is used up. *)
Definition st_participants : state (list nat) := State [PARTICIPANTS] [] 0.

(** The file name [url_mapping] holds for a giver. *)
Definition filename_of (url_mapping : gmap str url_info) (giver : str) : str :=
  match url_mapping !! giver with
  | Some info => info_filename info
  | None => []
  end.

(** The mapping drawn for the participants on the used-up tape. *)
Definition matches_participants : gmap str str :=
  match (generate_matches (H := Tape.random) 0 st_participants).1 with
  | Return matches => matches
  | Raise _ => ∅
  end.

(** ** File names, character by character *)

(** What [generate_filename] does to one ASCII character. *)
Definition ascii_filename_char (c : codepoint) : codepoint :=
  if c =? 0x20 then 0x2D
  else if (0x41 <=? c) && (c <=? 0x5A) then c + 0x20
  else c.

(** [generate_filename] on one character of a name below U+0100. *)
Definition latin1_filename_char (c : codepoint) : str :=
  generate_filename (U := Latin1.unicode_data) [c].

(** * Properties *)

Import Tape Latin1.

Section Refinement.
Context {G : Type} `{Random G}.

Lemma check_valid_run (rl : loc) (rs : list str) (σ : state G) :
  heap σ !! rl = Some rs →
  ∀ gs i, check_valid rl i gs σ = (valid i gs rs, σ).
Proof.
  intros Hrl gs. induction gs as [|giver rest IH]; intros i; [done|].
  cbn [check_valid valid]. unfold bind, list_getitem. rewrite Hrl.
  destruct (rs !! i) as [r|]; [|done].
  destruct (decide (giver = r)); [done|]. apply IH.
Qed.

Lemma fill_matches_run (rl : loc) (rs : list str) (σ : state G) :
  heap σ !! rl = Some rs →
  ∀ gs i m, fill_matches rl i gs m σ = (filled i gs rs m, σ).
Proof.
  intros Hrl gs. induction gs as [|giver rest IH]; intros i m; [done|].
  cbn [fill_matches filled]. unfold bind, list_getitem. rewrite Hrl.
  destruct (rs !! i) as [r|]; [|done]. apply IH.
Qed.

Lemma attempts_run (rl gl : loc) (gs : list str) (m : gmap str str) n :
  rl ≠ gl →
  ∀ (rs : list str) (σ : state G),
    heap σ !! rl = Some rs → heap σ !! gl = Some gs →
    attempts n rl gl m σ =
      let '(o, rs', g', k) := search n gs rs m (rng σ) in
      (o, State (<[rl := rs']> (heap σ)) g' (shuffles σ + k)).
Proof.
  intros Hne. induction n as [|n IH]; intros rs σ Hrl Hgl.
  - cbn [attempts search]. unfold raise.
    rewrite list_insert_id by done. rewrite Nat.add_0_r. by destruct σ.
  - cbn [attempts search]. unfold bind at 1. unfold random_shuffle. rewrite Hrl.
    destruct (shuffle rs (rng σ)) as [rs1 g1] eqn:Hsh.
    set (σ1 := State (<[rl:=rs1]> (heap σ)) g1 (S (shuffles σ))).
    assert (Hrl1 : heap σ1 !! rl = Some rs1).
    { unfold σ1; cbn [heap]. apply list_lookup_insert_eq. eapply lookup_lt_Some, Hrl. }
    assert (Hgl1 : heap σ1 !! gl = Some gs).
    { unfold σ1; cbn [heap]. by rewrite list_lookup_insert_ne. }
    unfold bind at 1. unfold list_items at 1. rewrite Hgl1.
    unfold bind at 1. rewrite (check_valid_run rl rs1 σ1 Hrl1).
    destruct (valid 0 gs rs1) as [[|]|e].
    + unfold bind, list_items. rewrite Hgl1.
      rewrite (fill_matches_run rl rs1 σ1 Hrl1).
      subst σ1. by rewrite Nat.add_1_r.
    + rewrite (IH rs1 σ1 Hrl1 Hgl1). cbn.
      destruct (search n gs rs1 m g1) as [[[o r] g2] k].
      rewrite list_insert_insert_eq. by rewrite Nat.add_succ_r.
    + subst σ1. by rewrite Nat.add_1_r.
Qed.

Lemma generate_matches_run (p : loc) (l : list str) (σ : state G) :
  heap σ !! p = Some l →
  generate_matches p σ =
    let '(o, rs', g', k) := search max_attempts l l ∅ (rng σ) in
    (o, State (heap σ ++ [rs'; l]) g' (shuffles σ + k)).
Proof.
  intros Hp. unfold generate_matches.
  unfold bind at 1. unfold list_copy at 1. rewrite Hp.
  unfold bind at 1. unfold list_copy at 1. cbn [heap rng shuffles].
  rewrite lookup_app_l by (eapply lookup_lt_Some, Hp). rewrite Hp.
  rewrite (attempts_run _ _ l ∅ max_attempts) with (rs := l).
  - cbn [heap rng shuffles].
    destruct (search max_attempts l l ∅ (rng σ)) as [[[o r] g2] k].
    do 2 f_equal. rewrite <- (assoc_L (++)).
    rewrite insert_app_r_alt by lia. by rewrite Nat.sub_diag.
  - rewrite length_app. cbn. lia.
  - cbn. rewrite lookup_app_l by (rewrite length_app; cbn; lia).
    rewrite lookup_app_r by lia. by rewrite Nat.sub_diag.
  - cbn. rewrite lookup_app_r by (rewrite length_app; cbn; lia).
    rewrite length_app. cbn. replace (_ - _)%nat with 0%nat by lia. done.
Qed.
End Refinement.

(** ** The two inner loops *)

Lemma valid_in_range (gs rs : list str) i :
  (i + length gs ≤ length rs)%nat → ∃ b, valid i gs rs = Return b.
Proof.
  revert i. induction gs as [|giver rest IH]; intros i Hlen; cbn [valid].
  - by eexists.
  - cbn [length] in Hlen.
    destruct (lookup_lt_is_Some_2 rs i) as [r ->]; [lia|].
    destruct (decide (giver = r)); [by eexists|]. apply IH. lia.
Qed.

Lemma filled_in_range (gs rs : list str) i m :
  (i + length gs ≤ length rs)%nat → ∃ m', filled i gs rs m = Return m'.
Proof.
  revert i m. induction gs as [|giver rest IH]; intros i m Hlen; cbn [filled].
  - by eexists.
  - cbn [length] in Hlen.
    destruct (lookup_lt_is_Some_2 rs i) as [r ->]; [lia|].
    apply IH. lia.
Qed.

(** A filled dictionary maps every giver to a name that is not the
    giver's, and leaves the other keys as they were. *)
Lemma filled_lookup (gs rs : list str) :
  ∀ i m m', valid i gs rs = Return true → filled i gs rs m = Return m' →
    ∀ p, (p ∈ gs → ∃ r, m' !! p = Some r ∧ r ≠ p)
         ∧ (p ∉ gs → m' !! p = m !! p).
Proof.
  induction gs as [|giver rest IH]; intros i m m' Hv Hf p;
    cbn [valid filled] in *.
  - injection Hf as <-. split; [by intros ?%elem_of_nil|done].
  - destruct (rs !! i) as [r|]; [|done].
    destruct (decide (giver = r)) as [|Hne]; [done|].
    destruct (IH _ _ _ Hv Hf p) as [Hin Hout].
    destruct (decide (p ∈ rest)) as [Hp|Hp].
    + split; [auto|]. intros []. by right.
    + split.
      * intros [->|?]%elem_of_cons; [|done].
        exists r. split; [|congruence].
        rewrite (Hout Hp). apply lookup_insert_eq.
      * intros Hp'. rewrite (Hout Hp). apply lookup_insert_ne.
        intros ->. apply Hp'. by left.
Qed.

(** Over distinct givers the filled dictionary is the list of the pairs
    (giver, receiver). *)
Lemma filled_list_to_map (gs rs : list str) :
  NoDup gs →
  ∀ i m m', filled i gs rs m = Return m' →
    m' = list_to_map (zip gs (drop i rs)) ∪ m.
Proof.
  induction 1 as [|giver rest Hnin Hnd IH]; intros i m m' Hf;
    cbn [filled] in Hf.
  - injection Hf as <-. cbn. by rewrite (left_id_L ∅ (∪)).
  - destruct (rs !! i) as [r|] eqn:Hr; [|done].
    rewrite (drop_S _ _ _ Hr). cbn [zip zip_with list_to_map foldr uncurry].
    rewrite (IH _ _ _ Hf). rewrite <- insert_union_l.
    rewrite insert_union_r; [done|].
    apply not_elem_of_list_to_map_1. intros Hin. apply Hnin.
    apply list_elem_of_fmap in Hin as [[a b] [Heq Hin]].
    cbn in Heq; subst a. by apply elem_of_zip_l in Hin.
Qed.

Lemma has_self_match_valid (gs rs : list str) i :
  (i + length gs ≤ length rs)%nat →
  has_self_match gs (drop i rs) = true → valid i gs rs = Return false.
Proof.
  revert i. induction gs as [|giver rest IH]; intros i Hlen Hm; [done|].
  cbn [length] in Hlen. cbn [valid].
  destruct (lookup_lt_is_Some_2 rs i) as [r Hr]; [lia|]. rewrite Hr.
  destruct (decide (giver = r)) as [|Hne]; [done|].
  apply IH; [lia|]. rewrite (drop_S _ _ _ Hr) in Hm.
  unfold has_self_match in *. cbn in Hm.
  by rewrite bool_decide_eq_false_2 in Hm.
Qed.

Lemma valid_no_self_match (gs rs : list str) i :
  valid i gs rs = Return true → has_self_match gs (drop i rs) = false.
Proof.
  revert i. induction gs as [|giver rest IH]; intros i Hv; [done|].
  cbn [valid] in Hv. destruct (rs !! i) as [r|] eqn:Hr; [|done].
  destruct (decide (giver = r)) as [|Hne]; [done|].
  rewrite (drop_S _ _ _ Hr). unfold has_self_match in *. cbn.
  rewrite bool_decide_eq_false_2 by done. by apply IH.
Qed.

(** ** The search loop *)

Section Search.
Context {G : Type} `{Random G}.

(** Between one and [n] shuffles are made (none when [n = 0]). *)
Lemma search_shuffles n (gs rs : list str) m (g : G) :
  let k := (search n gs rs m g).2 in
  (k ≤ n)%nat ∧ (0 < n → 0 < k)%nat.
Proof.
  revert rs g. induction n as [|n IH]; intros rs g; cbn [search].
  - cbn. lia.
  - destruct (shuffle rs g) as [rs1 g1].
    destruct (valid 0 gs rs1) as [[|]|e]; cbn; try lia.
    specialize (IH rs1 g1).
    destruct (search n gs rs1 m g1) as [[[o r] g2] k]. cbn in *. lia.
Qed.

(** A returned dictionary was filled from a candidate that passed the
    check; the only exception raised on purpose is the one after the
    loop, and it comes after exactly [n] shuffles. *)
Lemma search_outcome n (gs rs : list str) m (g : G) o rs' g' k :
  search n gs rs m g = (o, rs', g', k) →
  match o with
  | Return m' => valid 0 gs rs' = Return true ∧ filled 0 gs rs' m = Return m'
  | Raise e =>
    (e = Exception_ (exhausted_message max_attempts) ∧ k = n)
    ∨ valid 0 gs rs' = Raise e
    ∨ (valid 0 gs rs' = Return true ∧ filled 0 gs rs' m = Raise e)
  end.
Proof.
  revert rs g k. induction n as [|n IH]; intros rs g k; cbn [search].
  - intros [= <- <- <- <-]. by left.
  - destruct (shuffle rs g) as [rs1 g1].
    destruct (valid 0 gs rs1) as [[|]|e] eqn:Hv.
    + intros [= <- <- <- <-]. destruct (filled 0 gs rs1 m); auto.
    + destruct (search n gs rs1 m g1) as [[[o1 r1] g2] k1] eqn:Hs.
      intros [= <- <- <- <-]. specialize (IH _ _ _ Hs).
      destruct o1; [done|]. destruct IH as [[-> ->]|[?|?]]; auto.
    + intros [= <- <- <- <-]. auto.
Qed.

Lemma search_perm `{!RandomLaws G} n (gs rs : list str) m (g : G) :
  (search n gs rs m g).1.1.2 ≡ₚ rs.
Proof.
  revert rs g. induction n as [|n IH]; intros rs g; cbn [search]; [done|].
  pose proof (shuffle_perm rs g) as Hp.
  destruct (shuffle rs g) as [rs1 g1]. cbn in Hp.
  destruct (valid 0 gs rs1) as [[|]|e]; cbn; try done.
  specialize (IH rs1 g1).
  destruct (search n gs rs1 m g1) as [[[o r] g2] k]. cbn in *.
  by etrans.
Qed.

Lemma candidates_perm `{!RandomLaws G} n (x : list str) (g : G) :
  Forall (λ c, c ≡ₚ x) (candidates n x g).
Proof.
  revert x g. induction n as [|n IH]; intros x g; cbn [candidates]; [done|].
  pose proof (shuffle_perm x g) as Hp.
  destruct (shuffle x g) as [x1 g1]. cbn in Hp.
  constructor; [done|]. eapply Forall_impl; [apply IH|].
  intros c Hc. cbn in Hc. by rewrite Hc.
Qed.

(** When each of the first [n] candidates has a self-match, the loop runs
    to its end. *)
Lemma search_exhausted n (gs rs : list str) m (g : G) :
  Forall (λ c, length c = length gs ∧ has_self_match gs c = true)
    (candidates n rs g) →
  ∃ rs' g', search n gs rs m g =
    (Raise (Exception_ (exhausted_message max_attempts)), rs', g', n).
Proof.
  revert rs g. induction n as [|n IH]; intros rs g; cbn [search candidates].
  - by eexists _, _.
  - destruct (shuffle rs g) as [rs1 g1].
    intros [[Hlen Hm] Hall]%Forall_cons.
    rewrite (has_self_match_valid gs rs1 0); [|cbn; lia|done].
    destruct (IH _ _ Hall) as (rs' & g' & ->). by eexists _, _.
Qed.
End Search.

(** ** The replayed source is a lawful random source *)

Lemma swap_perm (i j : nat) (x : list str) : Tape.swap i j x ≡ₚ x.
Proof.
  unfold Tape.swap. destruct (x !! i) eqn:Hi; [|done].
  destruct (x !! j) eqn:Hj; [|done]. by apply Permutation_insert_swap.
Qed.

Lemma fisher_yates_perm n (x : list str) tape :
  (Tape.fisher_yates n x tape).1 ≡ₚ x.
Proof.
  revert x tape. induction n as [|n IH]; intros x tape; [done|].
  cbn [Tape.fisher_yates]. destruct (Tape.randbelow (S (S n)) tape) as [j tape'].
  rewrite IH. apply swap_perm.
Qed.

Lemma randbelow_lt n tape : (0 < n)%nat → ((Tape.randbelow n tape).1 < n)%nat.
Proof.
  intros Hn. destruct tape as [|d tape]; cbn; [done|].
  apply Nat.mod_upper_bound. lia.
Qed.

#[export] Instance tape_laws : RandomLaws (list nat).
Proof.
  split.
  - intros x g. apply fisher_yates_perm.
  - intros seq g Hseq. cbn.
    pose proof (randbelow_lt (length seq) g) as Hlt.
    destruct (Tape.randbelow (length seq) g) as [j tape']. cbn in *.
    apply list_elem_of_In, nth_In. apply Hlt.
    destruct seq; [done|cbn; lia].
Qed.

(** ** [generate_matches] *)

Lemma has_self_match_single (l c : list str) :
  length l = 1%nat → c ≡ₚ l → has_self_match l c = true.
Proof.
  destruct l as [|a [|]]; try done. intros _ ->%Permutation_singleton_r.
  cbn. by rewrite bool_decide_eq_true_2.
Qed.

Section MatcherProperties.
Context {G : Type} `{Random G}.

(** C1. A mapping returned by [generate_matches] sends every participant
    of the input list to a receiver, and the receiver is never the
    participant: [matches[p] != p]. *)
Theorem generate_matches_no_self (participants : loc) (l : list str)
    (σ σ' : state G) (matches : gmap str str) :
  heap σ !! participants = Some l →
  generate_matches participants σ = (Return matches, σ') →
  ∀ p, p ∈ l → ∃ r, matches !! p = Some r ∧ r ≠ p.
Proof.
  intros Hl Hrun p Hp. rewrite (generate_matches_run _ _ _ Hl) in Hrun.
  destruct (search max_attempts l l ∅ (rng σ)) as [[[o rs'] g'] k] eqn:Hs.
  injection Hrun as -> _. apply search_outcome in Hs as [Hv Hf].
  by apply (filled_lookup _ _ _ _ _ Hv Hf p).
Qed.

(** C8. Run from the same generator state on the same list, a second
    call of [generate_matches] gives the outcome of the first (the same
    mapping, or the same exception) and leaves the generator in the same
    state. *)
Theorem generate_matches_deterministic (participants : loc) (l : list str)
    (σ σ1 σ2 : state G) (o1 o2 : outcome (gmap str str)) :
  heap σ !! participants = Some l →
  generate_matches participants σ = (o1, σ1) →
  generate_matches participants (reseed (rng σ) σ1) = (o2, σ2) →
  o1 = o2 ∧ rng σ1 = rng σ2.
Proof.
  intros Hl Hrun1 Hrun2. rewrite (generate_matches_run _ _ _ Hl) in Hrun1.
  destruct (search max_attempts l l ∅ (rng σ)) as [[[o rs'] g'] k] eqn:Hs.
  injection Hrun1 as <- <-.
  rewrite (generate_matches_run _ l) in Hrun2.
  - cbn [reseed rng heap shuffles] in Hrun2. rewrite Hs in Hrun2.
    by injection Hrun2 as <- <-.
  - cbn. apply lookup_app_l_Some, Hl.
Qed.

(** C9. [generate_matches] leaves the list it is given as it was, whether
    it returns or raises, and so every list object that existed before
    the call: the store only grows by the two copies. *)
Theorem generate_matches_input_unchanged (participants : loc) (l : list str)
    (σ σ' : state G) (o : outcome (gmap str str)) :
  heap σ !! participants = Some l →
  generate_matches participants σ = (o, σ') →
  heap σ' !! participants = Some l
  ∧ ∀ (x : loc) (v : list str), heap σ !! x = Some v → heap σ' !! x = Some v.
Proof.
  intros Hl Hrun. rewrite (generate_matches_run _ _ _ Hl) in Hrun.
  destruct (search max_attempts l l ∅ (rng σ)) as [[[o' rs'] g'] k].
  injection Hrun as _ <-. cbn [heap].
  split; [|intros x v Hx]; by apply lookup_app_l_Some.
Qed.

Context `{!RandomLaws G}.

Lemma search_length n (gs rs : list str) m (g : G) :
  length (search n gs rs m g).1.1.2 = length rs.
Proof. apply Permutation_length, search_perm. Qed.

(** C2. Over distinct participants a returned mapping is a permutation of
    the participants: its keys are the participants, and its values,
    counted with multiplicity, are the participants once each. *)
Theorem generate_matches_permutation (participants : loc) (l : list str)
    (σ σ' : state G) (matches : gmap str str) :
  heap σ !! participants = Some l →
  NoDup l →
  generate_matches participants σ = (Return matches, σ') →
  dom matches = list_to_set l
  ∧ (map_to_list matches).*1 ≡ₚ l
  ∧ (map_to_list matches).*2 ≡ₚ l.
Proof.
  intros Hl Hnd Hrun. rewrite (generate_matches_run _ _ _ Hl) in Hrun.
  pose proof (search_perm max_attempts l l ∅ (rng σ)) as Hperm.
  destruct (search max_attempts l l ∅ (rng σ)) as [[[o rs'] g'] k] eqn:Hs.
  injection Hrun as -> _. cbn in Hperm.
  apply search_outcome in Hs as [_ Hf].
  apply (filled_list_to_map _ _ Hnd) in Hf. rewrite drop_0 in Hf.
  rewrite (right_id_L ∅ (∪)) in Hf. subst matches.
  pose proof (Permutation_length Hperm) as Hlen.
  assert (Hfst : (zip l rs').*1 = l) by (apply fst_zip; lia).
  assert (Hsnd : (zip l rs').*2 = rs') by (apply snd_zip; lia).
  split; [|split].
  - by rewrite dom_list_to_map_L, Hfst.
  - rewrite map_to_list_to_map by (by rewrite Hfst). by rewrite Hfst.
  - rewrite map_to_list_to_map by (by rewrite Hfst). by rewrite Hsnd.
Qed.

(** C3. When every candidate of the run has a self-match (as all of them
    have when there is one participant) [generate_matches] raises the
    exception that follows the loop, after exactly 1000 shuffles, and
    returns no mapping. *)
Theorem generate_matches_exhausted (participants : loc) (l : list str)
    (σ : state G) :
  heap σ !! participants = Some l →
  length l = 1%nat
  ∨ forallb (has_self_match l) (candidates max_attempts l (rng σ)) = true →
  ∃ σ', generate_matches participants σ
          = (Raise (Exception_ (exhausted_message 1000)), σ')
        ∧ shuffles σ' = (shuffles σ + 1000)%nat.
Proof.
  intros Hl Hc. rewrite (generate_matches_run _ _ _ Hl).
  destruct (search_exhausted max_attempts l l ∅ (rng σ)) as (rs' & g' & ->).
  - pose proof (candidates_perm max_attempts l (rng σ)) as Hperm.
    rewrite Forall_forall in Hperm. apply Forall_forall. intros c Hin.
    split; [apply Permutation_length, Hperm, Hin|].
    destruct Hc as [Hone|Hall].
    + by apply has_self_match_single, Hperm.
    + rewrite forallb_forall in Hall. by apply Hall, list_elem_of_In.
  - by eexists.
Qed.

Lemma search_empty n (rs : list str) m (g : G) :
  (0 < n)%nat → (search n [] rs m g).1.1.1 = Return m.
Proof.
  destruct n as [|n]; [lia|]. intros _. cbn [search].
  by destruct (shuffle rs g).
Qed.

(** C4, as the code has it.  [generate_matches] checks nothing about its
    input before searching: on every list, short or with duplicates, it
    makes at least one shuffle and at most 1000; it raises only the
    exception that follows the loop, after 1000 shuffles; on the empty
    list it returns the empty mapping and on a list of one participant it
    raises that exception. *)
Theorem generate_matches_unvalidated (participants : loc) (l : list str)
    (σ : state G) :
  heap σ !! participants = Some l →
  ∃ o σ', generate_matches participants σ = (o, σ')
    ∧ (shuffles σ < shuffles σ' ≤ shuffles σ + 1000)%nat
    ∧ (∀ e, o = Raise e →
         e = Exception_ (exhausted_message 1000)
         ∧ shuffles σ' = (shuffles σ + 1000)%nat)
    ∧ (l = [] → o = Return ∅)
    ∧ (length l = 1%nat → o = Raise (Exception_ (exhausted_message 1000))).
Proof.
  intros Hl. rewrite (generate_matches_run _ _ _ Hl).
  pose proof (search_shuffles max_attempts l l ∅ (rng σ)) as [Hle Hlt].
  pose proof (search_length max_attempts l l ∅ (rng σ)) as Hlen.
  assert (Hpos : (0 < max_attempts)%nat) by (unfold max_attempts; lia).
  assert (Hempty : l = [] →
            (search max_attempts l l ∅ (rng σ)).1.1.1 = Return ∅)
    by (intros ->; by apply search_empty).
  pose proof (search_exhausted max_attempts l l ∅ (rng σ)) as Hone.
  pose proof (candidates_perm max_attempts l (rng σ)) as Hperm.
  destruct (search max_attempts l l ∅ (rng σ)) as [[[o rs'] g'] k] eqn:Hs.
  cbn [fst snd] in Hle, Hlt, Hlen, Hempty.
  eexists _, _. split; [done|]. cbn [shuffles].
  specialize (Hlt Hpos). change max_attempts with 1000%nat in Hle.
  split; [lia|]. split; [|split].
  - intros e ->. apply search_outcome in Hs as [[-> ->]|[Hv|[_ Hf]]]; [done| |].
    + destruct (valid_in_range l rs' 0) as [b Hb]; [lia|]. congruence.
    + destruct (filled_in_range l rs' 0 ∅) as [b Hb]; [lia|]. congruence.
  - apply Hempty.
  - intros Hlen1. destruct Hone as (? & ? & [= -> _ _ _]); [|done].
    rewrite Forall_forall in Hperm. apply Forall_forall. intros c Hin.
    split; [apply Permutation_length, Hperm, Hin|].
    by apply has_self_match_single, Hperm.
Qed.

(** C7. On a list of two participants the only mapping
    [generate_matches] returns is the swap. *)
Theorem generate_matches_two (participants : loc) (a b : str)
    (σ σ' : state G) (matches : gmap str str) :
  heap σ !! participants = Some [a; b] →
  generate_matches participants σ = (Return matches, σ') →
  matches = {[a := b; b := a]}.
Proof.
  intros Hl Hrun. rewrite (generate_matches_run _ _ _ Hl) in Hrun.
  pose proof (search_perm max_attempts [a; b] [a; b] ∅ (rng σ)) as Hperm.
  destruct (search max_attempts [a; b] [a; b] ∅ (rng σ))
    as [[[o rs'] g'] k] eqn:Hs.
  injection Hrun as -> _. cbn in Hperm.
  apply search_outcome in Hs as [Hv Hf].
  symmetry in Hperm. apply Permutation_length_2_inv in Hperm as [->| ->].
  - cbn in Hv. by destruct (decide (a = a)).
  - cbn in Hv, Hf. destruct (decide (a = b)) as [|Hne]; [done|].
    injection Hf as <-. by apply insert_insert_ne.
Qed.
End MatcherProperties.

(** ** Substrings *)

Lemma starts_with_spec (needle hay : str) :
  starts_with needle hay = true ↔ ∃ after, hay = needle ++ after.
Proof.
  revert hay. induction needle as [|c needle IH]; intros hay; cbn.
  - split; [by exists hay|done].
  - destruct hay as [|d hay].
    + split; [done|]. by intros [? ?].
    + rewrite andb_true_iff, N.eqb_eq, IH. split.
      * intros [-> [after ->]]. by exists after.
      * intros [after [= -> ->]]. split; [done|by exists after].
Qed.

Lemma contains_spec (needle hay : str) :
  contains needle hay = true ↔ substring needle hay.
Proof.
  induction hay as [|d hay IH]; cbn [contains];
    rewrite orb_true_iff, starts_with_spec.
  - split.
    + intros [[after Heq]|?]; [|done]. by exists [], after.
    + intros (before & after & Heq). left.
      destruct before; [by exists after|done].
  - rewrite IH. split.
    + intros [[after Heq]|(before & after & ->)].
      * by exists [], after.
      * by exists (d :: before), after.
    + intros ([|d' before] & after & Heq).
      * left. by exists after.
      * right. injection Heq as -> ->. by exists before, after.
Qed.

Lemma occurrences_contains (needle hay : str) :
  occurrences needle hay = 0%nat ↔ contains needle hay = false.
Proof.
  induction hay as [|d hay IH]; cbn [occurrences contains].
  - destruct (starts_with needle []); cbn; split; (done || lia).
  - destruct (starts_with needle (d :: hay)); cbn; [split; (done || lia)|].
    apply IH.
Qed.

Lemma occurrences_substring (needle hay : str) :
  (0 < occurrences needle hay)%nat ↔ substring needle hay.
Proof.
  rewrite <- contains_spec.
  pose proof (occurrences_contains needle hay) as [Hzero Hfalse].
  destruct (contains needle hay) eqn:Hc; split; try done.
  - intros _. destruct (occurrences needle hay); [by specialize (Hzero eq_refl)|lia].
  - intros Hpos. rewrite Hfalse in Hpos by done. lia.
Qed.

(** ** The page *)

Example page_compiles :
  fstring_compile None (py_lines individual_page_literal) = Some page_pieces.
Proof. vm_compute. reflexivity. Qed.

(** The page is its literal text with the two names put in; no other
    local is read. *)
Lemma create_individual_page_eq (giver receiver random_string : str) :
  create_individual_page giver receiver random_string
  = Some (page_head ++ giver ++ page_mid ++ receiver ++ page_tail).
Proof. vm_compute. reflexivity. Qed.

(** ** Occurrences across a separator *)

Lemma starts_with_sep (sep : codepoint) (needle a b : str) :
  sep ∉ needle →
  starts_with needle (a ++ sep :: b) = starts_with needle a.
Proof.
  revert a. induction needle as [|c needle IH]; intros a Hsep; [done|].
  apply not_elem_of_cons in Hsep as [Hc Hsep].
  destruct a as [|d a]; cbn.
  - by rewrite (proj2 (N.eqb_neq c sep)) by congruence.
  - by rewrite IH.
Qed.

Lemma occurrences_sep (sep : codepoint) (needle a b : str) :
  needle ≠ [] → sep ∉ needle →
  occurrences needle (a ++ sep :: b)
  = (occurrences needle a + occurrences needle b)%nat.
Proof.
  intros Hne Hsep. induction a as [|d a IH].
  - cbn [app occurrences]. destruct needle as [|c needle]; [done|].
    apply not_elem_of_cons in Hsep as [Hc _]. cbn [starts_with].
    by rewrite (proj2 (N.eqb_neq c sep)) by congruence.
  - cbn [app occurrences]. rewrite IH.
    change (d :: a ++ sep :: b) with ((d :: a) ++ sep :: b).
    rewrite (starts_with_sep sep needle (d :: a) b Hsep). lia.
Qed.

Lemma occurrences_nil (needle : str) :
  needle ≠ [] → occurrences needle [] = 0%nat.
Proof. by destruct needle. Qed.

(** No occurrence runs over the end of a text that ends with a character
    the needle lacks, nor over the start of one that begins with such a
    character. *)
Lemma occurrences_app_l (sep : codepoint) (needle a b : str) :
  needle ≠ [] → sep ∉ needle → last a = Some sep →
  occurrences needle (a ++ b)
  = (occurrences needle a + occurrences needle b)%nat.
Proof.
  intros Hne Hsep [a' ->]%last_Some. rewrite <- (assoc_L (++)). cbn [app].
  rewrite !occurrences_sep, occurrences_nil by done. lia.
Qed.

Lemma occurrences_app_r (sep : codepoint) (needle a b : str) :
  needle ≠ [] → sep ∉ needle → head b = Some sep →
  occurrences needle (a ++ b)
  = (occurrences needle a + occurrences needle b)%nat.
Proof.
  intros Hne Hsep Hb. destruct b as [|? b']; [done|]. injection Hb as ->.
  rewrite occurrences_sep by done.
  pose proof (occurrences_sep sep needle [] b' Hne Hsep) as Hb.
  rewrite occurrences_nil in Hb by done. cbn [app] in Hb. lia.
Qed.

(** ** [create_individual_page] *)

Lemma names_checked : forallb name_check PARTICIPANTS = true.
Proof. vm_compute. reflexivity. Qed.

#[local] Opaque page_head page_mid page_tail.

Lemma page_brackets :
  last page_head = Some 0x3E ∧ head page_mid = Some 0x3C
  ∧ last page_mid = Some 0x3E ∧ head page_tail = Some 0x3C.
Proof. vm_compute. done. Qed.

Lemma not_existsb_eqb (c : codepoint) (s : str) :
  existsb (N.eqb c) s = false → c ∉ s.
Proof.
  intros Hex Hin. apply list_elem_of_In in Hin.
  assert (existsb (N.eqb c) s = true); [|congruence].
  apply existsb_exists. exists c. by rewrite N.eqb_refl.
Qed.

Lemma name_facts (name : str) :
  name ∈ PARTICIPANTS →
  name ≠ [] ∧ (0x3C ∉ name) ∧ (0x3E ∉ name)
  ∧ occurrences name page_head = 0%nat
  ∧ occurrences name page_mid = 0%nat
  ∧ occurrences name page_tail = 0%nat
  ∧ ∀ other, other ∈ PARTICIPANTS →
      occurrences name other = if bool_decide (name = other) then 1%nat else 0%nat.
Proof.
  intros Hin. pose proof names_checked as Hall.
  rewrite forallb_forall in Hall.
  specialize (Hall name (proj1 (list_elem_of_In _ _) Hin)).
  unfold name_check in Hall.
  repeat (apply andb_prop in Hall as [Hall ?]).
  repeat split.
  - apply negb_true_iff in Hall. by apply bool_decide_eq_false in Hall.
  - apply not_existsb_eqb, negb_true_iff. assumption.
  - apply not_existsb_eqb, negb_true_iff. assumption.
  - apply Nat.eqb_eq. assumption.
  - apply Nat.eqb_eq. assumption.
  - apply Nat.eqb_eq. assumption.
  - intros other Hother.
    match goal with Hf : forallb _ _ = true |- _ =>
      rewrite forallb_forall in Hf;
      specialize (Hf other (proj1 (list_elem_of_In _ _) Hother));
      apply Nat.eqb_eq; exact Hf end.
Qed.

(** The occurrences of a participant's name in a page are those inside
    the two names put in. *)
Lemma page_occurrences (name giver receiver : str) :
  name ∈ PARTICIPANTS →
  occurrences name (page_head ++ giver ++ page_mid ++ receiver ++ page_tail)
  = (occurrences name giver + occurrences name receiver)%nat.
Proof.
  intros (Hne & Hlt & Hgt & Hh & Hm & Ht & _)%name_facts.
  destruct page_brackets as (Hhl & Hmh & Hml & Hth).
  assert (Hmid : ∀ rest, head (page_mid ++ rest) = Some 0x3C).
  { intros rest. destruct page_mid; [discriminate Hmh|exact Hmh]. }
  pose proof (occurrences_app_l 0x3E name page_head
                (giver ++ page_mid ++ receiver ++ page_tail) Hne Hgt Hhl).
  pose proof (occurrences_app_r 0x3C name giver
                (page_mid ++ receiver ++ page_tail) Hne Hlt (Hmid _)).
  pose proof (occurrences_app_l 0x3E name page_mid
                (receiver ++ page_tail) Hne Hgt Hml).
  pose proof (occurrences_app_r 0x3C name receiver page_tail Hne Hlt Hth).
  lia.
Qed.

Lemma name_in_itself (a : str) :
  a ∈ PARTICIPANTS → occurrences a a = 1%nat.
Proof.
  intros Ha. destruct (name_facts a Ha) as (_ & _ & _ & _ & _ & _ & Hocc).
  rewrite (Hocc a Ha). by rewrite bool_decide_eq_true_2.
Qed.

Lemma name_in_other (a b : str) :
  a ∈ PARTICIPANTS → b ∈ PARTICIPANTS → a ≠ b → occurrences a b = 0%nat.
Proof.
  intros Ha Hb Hne. destruct (name_facts a Ha) as (_ & _ & _ & _ & _ & _ & Hocc).
  rewrite (Hocc b Hb). by rewrite bool_decide_eq_false_2.
Qed.

(** C5. The page made for a giver and a receiver taken among the
    participants contains the giver's name (once) and the receiver's name
    (once), and no occurrence of any other participant's name. *)
Theorem individual_page_privacy (giver receiver random_string : str) :
  giver ∈ PARTICIPANTS → receiver ∈ PARTICIPANTS → giver ≠ receiver →
  ∃ html, create_individual_page giver receiver random_string = Some html
    ∧ substring giver html ∧ occurrences giver html = 1%nat
    ∧ substring receiver html ∧ occurrences receiver html = 1%nat
    ∧ ∀ other, other ∈ PARTICIPANTS → other ≠ giver → other ≠ receiver →
        occurrences other html = 0%nat ∧ ¬ substring other html.
Proof.
  intros Hg Hr Hne. eexists. split; [apply create_individual_page_eq|].
  pose proof (page_occurrences giver giver receiver Hg) as Hgiver.
  rewrite (name_in_itself giver Hg) in Hgiver.
  rewrite (name_in_other giver receiver Hg Hr Hne) in Hgiver.
  pose proof (page_occurrences receiver giver receiver Hr) as Hreceiver.
  rewrite (name_in_itself receiver Hr) in Hreceiver.
  rewrite (name_in_other receiver giver Hr Hg (not_eq_sym Hne)) in Hreceiver.
  split; [apply occurrences_substring; rewrite Hgiver; lia|].
  split; [exact Hgiver|].
  split; [apply occurrences_substring; rewrite Hreceiver; lia|].
  split; [exact Hreceiver|].
  intros other Ho Hog Hor.
  pose proof (page_occurrences other giver receiver Ho) as Hother.
  rewrite (name_in_other other giver Ho Hg Hog) in Hother.
  rewrite (name_in_other other receiver Ho Hr Hor) in Hother.
  split; [exact Hother|].
  intros Hsub%occurrences_substring. rewrite Hother in Hsub. lia.
Qed.

Lemma individual_page_privacy_witness :
  ∃ html, create_individual_page (py "Annie") (py "Léon") (py "k3x9q2ab")
          = Some html
    ∧ substring (py "Annie") html ∧ occurrences (py "Annie") html = 1%nat
    ∧ substring (py "Léon") html ∧ occurrences (py "Léon") html = 1%nat
    ∧ ∀ other, other ∈ PARTICIPANTS → other ≠ py "Annie" → other ≠ py "Léon" →
        occurrences other html = 0%nat ∧ ¬ substring other html.
Proof.
  apply individual_page_privacy.
  - apply list_elem_of_In. vm_compute. tauto.
  - apply list_elem_of_In. vm_compute. tauto.
  - vm_compute. discriminate.
Defined.

(** C10. The page does not depend on [random_string]: two tokens give the
    same page, and the page [main] writes under a file name is the page of
    any token. *)
Theorem page_independent_of_token (giver receiver t1 t2 : str) :
  create_individual_page giver receiver t1
  = create_individual_page giver receiver t2
  ∧ ∀ `(Random G) (U : UnicodeData) (σ : state G),
      match (main_page giver receiver σ).1 with
      | Return (_, html_content) =>
        html_content = create_individual_page giver receiver t1
      | Raise _ => True
      end.
Proof.
  split; [by rewrite !create_individual_page_eq|].
  intros G HG U σ. unfold main_page, bind.
  destruct (generate_random_string 8 σ) as [[t|e] σ']; [|done].
  unfold ret. cbn [fst]. by rewrite !create_individual_page_eq.
Qed.

(** ** File names *)


Lemma characters_lower_alnum (c : codepoint) :
  c ∈ characters → is_lower_alnum c = true.
Proof.
  intros Hin%list_elem_of_In. revert c Hin. apply forallb_forall.
  vm_compute. reflexivity.
Qed.

Section Token.
Context {G : Type} `{Random G} `{!RandomLaws G}.

End Token.

(** [generate_filename] works character by character on the Unicode data
    below U+0100, which can be gone through. *)
Lemma generate_filename_flat_map (name : str) :
  generate_filename (U := Latin1.unicode_data) name
  = flat_map latin1_filename_char name.
Proof.
  unfold latin1_filename_char, generate_filename. cbn [normalize_NFD lower category Latin1.unicode_data].
  induction name as [|c name IH]; [done|].
  cbn [flat_map]. rewrite filter_app. unfold replace_char in *.
  rewrite !map_app. rewrite IH. f_equal.
  by rewrite app_nil_r.
Qed.

Lemma below_forallb (bound : codepoint) (P : codepoint → bool) :
  forallb P (N.of_nat <$> seq 0 (N.to_nat bound)) = true →
  ∀ c, c < bound → P c = true.
Proof.
  intros Hall c Hc. rewrite forallb_forall in Hall. apply Hall.
  apply list_elem_of_In, list_elem_of_fmap. exists (N.to_nat c).
  split; [by rewrite N2Nat.id|]. apply list_elem_of_In, in_seq. lia.
Qed.

Section Filename.
Context {G : Type} `{Random G} `{!RandomLaws G} {U : UnicodeData}.

End Filename.



(** ** Runs on the replayed source *)

Example run_three :
  generate_matches 0 st_three = (Return matches_three, st_three').
Proof. vm_compute. reflexivity. Qed.

Lemma generate_matches_no_self_witness :
  ∃ r, matches_three !! py "B" = Some r ∧ r ≠ py "B".
Proof.
  apply (generate_matches_no_self 0 three st_three st_three' matches_three).
  - reflexivity.
  - vm_compute. reflexivity.
  - apply list_elem_of_In. vm_compute. tauto.
Defined.

Lemma generate_matches_permutation_witness :
  dom matches_three = list_to_set three
  ∧ (map_to_list matches_three).*1 ≡ₚ three
  ∧ (map_to_list matches_three).*2 ≡ₚ three.
Proof.
  apply (generate_matches_permutation 0 three st_three st_three' matches_three).
  - reflexivity.
  - apply NoDup_ListNoDup. vm_compute. repeat constructor; vm_compute; intuition discriminate.
  - vm_compute. reflexivity.
Defined.

Lemma generate_matches_exhausted_witness :
  ∃ σ', generate_matches 0 st_identity
          = (Raise (Exception_ (exhausted_message 1000)), σ')
        ∧ shuffles σ' = (shuffles st_identity + 1000)%nat.
Proof.
  apply (generate_matches_exhausted 0 two st_identity).
  - reflexivity.
  - right. vm_compute. reflexivity.
Defined.

Lemma generate_matches_unvalidated_witness :
  ∃ o σ', generate_matches 0 st_identity = (o, σ')
    ∧ (shuffles st_identity < shuffles σ' ≤ shuffles st_identity + 1000)%nat
    ∧ (∀ e, o = Raise e →
         e = Exception_ (exhausted_message 1000)
         ∧ shuffles σ' = (shuffles st_identity + 1000)%nat)
    ∧ (two = [] → o = Return ∅)
    ∧ (length two = 1%nat → o = Raise (Exception_ (exhausted_message 1000))).
Proof.
  apply (generate_matches_unvalidated 0 two st_identity). reflexivity.
Defined.

Lemma generate_matches_two_witness :
  ∃ matches σ', generate_matches 0 st_two = (Return matches, σ')
    ∧ matches = {[py "A" := py "B"; py "B" := py "A"]}.
Proof.
  eexists _, _. split; [vm_compute; reflexivity|].
  eapply (generate_matches_two 0 (py "A") (py "B") st_two).
  - reflexivity.
  - vm_compute. reflexivity.
Defined.

Lemma generate_matches_deterministic_witness :
  (generate_matches 0 st_three).1
  = (generate_matches 0 (reseed (rng st_three)
                           (generate_matches 0 st_three).2)).1
  ∧ rng (generate_matches 0 st_three).2
    = rng (generate_matches 0 (reseed (rng st_three)
                                 (generate_matches 0 st_three).2)).2.
Proof.
  apply (generate_matches_deterministic 0 three st_three).
  - reflexivity.
  - apply surjective_pairing.
  - apply surjective_pairing.
Defined.

Lemma generate_matches_input_unchanged_witness :
  heap st_three' !! 0%nat = Some three
  ∧ ∀ (x : loc) (v : list str),
      heap st_three !! x = Some v → heap st_three' !! x = Some v.
Proof.
  apply (generate_matches_input_unchanged 0 three st_three st_three'
           (Return matches_three)).
  - reflexivity.
  - vm_compute. reflexivity.
Defined.

(** C4 as stated fails: nothing is rejected.  The empty list gets the
    empty mapping after one shuffle; a list of one name is shuffled 1000
    times before the exception of the loop; a list with duplicates gets a
    mapping. *)
Lemma generate_matches_rejects_nothing :
  generate_matches 0 (State [[]] ([] : list nat) 0)
  = (Return ∅, State [[]; []; []] [] 1)
  ∧ generate_matches 0 (State [[py "A"]] ([] : list nat) 0)
    = (Raise (Exception_ (exhausted_message 1000)),
       State [[py "A"]; [py "A"]; [py "A"]] [] 1000)
  ∧ generate_matches 0
      (State [[py "A"; py "A"; py "B"; py "B"]] [0; 1; 1]%nat 0)
    = (Return {[py "A" := py "B"; py "B" := py "A"]},
       State [[py "A"; py "A"; py "B"; py "B"];
              [py "B"; py "B"; py "A"; py "A"];
              [py "A"; py "A"; py "B"; py "B"]] [] 1).
Proof. vm_compute. done. Qed.

Example exhausted_message_text :
  exhausted_message max_attempts
  = py "Could not generate valid matching after 1000 attempts".
Proof. vm_compute. reflexivity. Qed.

(** * Further properties *)

From Stdlib Require Import Sorted.

(** ** More on tokens and file names *)

Section TokenProperties.
Context {G : Type} `{Random G} `{!RandomLaws G}.

Lemma generate_random_string_steps (length_ : nat) (σ : state G) :
  ∃ token σ', generate_random_string length_ σ = (Return token, σ')
    ∧ length token = length_
    ∧ Forall (λ c, is_lower_alnum c = true) token
    ∧ heap σ' = heap σ
    ∧ shuffles σ' = shuffles σ.
Proof.
  revert σ. induction length_ as [|n IH]; intros σ;
    cbn [generate_random_string].
  - by eexists [], σ.
  - unfold bind at 1. unfold random_choice.
    pose proof (choice_elem characters (rng σ)) as Hc.
    destruct characters as [|c0 cs] eqn:Hchars; [by vm_compute in Hchars|].
    rewrite <- Hchars in *.
    destruct (choice characters (rng σ)) as [c g'].
    destruct (IH (State (heap σ) g' (shuffles σ)))
      as (token & σ' & Hrun & Hlen & Hall & Hheap & Hsh).
    unfold bind. rewrite Hrun. eexists (c :: token), σ'.
    split; [done|]. split; [by cbn; rewrite Hlen|].
    split; [|done]. constructor; [|done].
    apply characters_lower_alnum, Hc. by rewrite Hchars.
Qed.

(** X1. With a lawful random source, [generate_random_string(length)]
    never raises: it returns a string of exactly [length] characters, each
    a lowercase letter or a digit; it changes no list and makes no
    shuffle. *)
Theorem generate_random_string_token (length_ : nat) (σ : state G) :
  ∃ token σ', generate_random_string length_ σ = (Return token, σ')
    ∧ length token = length_
    ∧ Forall (λ c, is_lower_alnum c = true) token
    ∧ heap σ' = heap σ
    ∧ shuffles σ' = shuffles σ.
Proof. apply generate_random_string_steps. Qed.
End TokenProperties.

Lemma generate_random_string_token_witness :
  ∃ token σ',
    generate_random_string 3 (State [] [0; 26; 37]%nat 5) = (Return token, σ')
    ∧ length token = 3%nat
    ∧ Forall (λ c, is_lower_alnum c = true) token
    ∧ heap σ' = []
    ∧ shuffles σ' = 5%nat.
Proof. apply (generate_random_string_token (G := list nat)). Defined.


(** X2. On a name of ASCII characters [generate_filename] works
    character by character: a space becomes a hyphen, a letter A to Z
    becomes its lowercase, and every other character (a digit, a sign,
    also a slash or a dot) is kept; the length is unchanged. *)
Theorem generate_filename_ascii (name : str) :
  Forall (λ c, c < 0x80) name →
  generate_filename (U := Latin1.unicode_data) name
  = map ascii_filename_char name.
Proof.
  intros Hall. rewrite generate_filename_flat_map.
  induction Hall as [|c name Hc _ IH]; [done|].
  cbn [flat_map map]. rewrite IH.
  assert (Hchar : latin1_filename_char c = [ascii_filename_char c]);
    [|by rewrite Hchar].
  revert c Hc.
  assert (Hall : ∀ c, c < 0x80 →
            bool_decide (latin1_filename_char c = [ascii_filename_char c])
            = true).
  { apply below_forallb. vm_compute. reflexivity. }
  intros c Hc. exact (proj1 (bool_decide_eq_true _) (Hall c Hc)).
Qed.

Lemma generate_filename_ascii_witness :
  generate_filename (U := Latin1.unicode_data) (py "Jean Paul/../x.Y")
  = map ascii_filename_char (py "Jean Paul/../x.Y").
Proof.
  apply generate_filename_ascii.
  apply Forall_forall. intros c Hc%list_elem_of_In.
  apply N.ltb_lt. revert c Hc. apply forallb_forall. vm_compute. reflexivity.
Defined.

(** X3. On a name whose code points are below U+0100,
    [generate_filename] is idempotent: the file name of a file name is
    that file name. *)
Theorem generate_filename_idempotent (name : str) :
  Forall (λ c, c < 0x100) name →
  generate_filename (U := Latin1.unicode_data)
    (generate_filename (U := Latin1.unicode_data) name)
  = generate_filename (U := Latin1.unicode_data) name.
Proof.
  intros Hall. rewrite !generate_filename_flat_map.
  induction Hall as [|c name Hc _ IH]; [done|].
  cbn [flat_map]. rewrite flat_map_app, IH. f_equal.
  revert c Hc.
  assert (Hall : ∀ c, c < 0x100 →
            bool_decide (flat_map latin1_filename_char (latin1_filename_char c)
                         = latin1_filename_char c) = true).
  { apply below_forallb. vm_compute. reflexivity. }
  intros c Hc. exact (proj1 (bool_decide_eq_true _) (Hall c Hc)).
Qed.

Lemma generate_filename_idempotent_witness :
  generate_filename (U := Latin1.unicode_data)
    (generate_filename (U := Latin1.unicode_data) (py "Aurélie Straße"))
  = generate_filename (U := Latin1.unicode_data) (py "Aurélie Straße").
Proof.
  apply generate_filename_idempotent.
  apply Forall_forall. intros c Hc%list_elem_of_In.
  apply N.ltb_lt. revert c Hc. apply forallb_forall. vm_compute. reflexivity.
Defined.

(** ** More on the pages *)

Lemma page_frame :
  (∃ rest, page_head = py "<!DOCTYPE html>" ++ rest)
  ∧ (∃ rest, page_tail = rest ++ py "</html>")
  ∧ N.of_nat (length page_head + length page_mid + length page_tail) = 7264.
Proof.
  split; [|split].
  - apply starts_with_spec. vm_compute. reflexivity.
  - assert (Hrev : starts_with (reverse (py "</html>")) (reverse page_tail)
                   = true) by (vm_compute; reflexivity).
    apply starts_with_spec in Hrev as [rest Hrev].
    exists (reverse rest). apply (inj reverse).
    by rewrite reverse_app, reverse_involutive.
  - vm_compute. reflexivity.
Qed.

(** X4. For arbitrary strings [create_individual_page] returns a page
    that begins with the doctype and ends with the closing tag of the
    document, contains the giver and the receiver exactly as given
    (nothing is escaped), and is 7264 code points longer than the two
    together. *)
Theorem create_individual_page_verbatim (giver receiver random_string : str) :
  ∃ html, create_individual_page giver receiver random_string = Some html
    ∧ substring giver html
    ∧ substring receiver html
    ∧ N.of_nat (length html)
      = 7264 + N.of_nat (length giver) + N.of_nat (length receiver)
    ∧ py "<!DOCTYPE html>" `prefix_of` html
    ∧ py "</html>" `suffix_of` html.
Proof.
  eexists. split; [apply create_individual_page_eq|].
  destruct page_frame as ([h Hh] & [t Ht] & Hlen).
  split.
  { exists page_head, (page_mid ++ receiver ++ page_tail). reflexivity. }
  split.
  { exists (page_head ++ giver ++ page_mid), page_tail.
    rewrite <- !(assoc_L (++)). reflexivity. }
  split; [rewrite !length_app; lia|].
  split.
  - rewrite Hh. rewrite <- (assoc_L (++)). eexists. reflexivity.
  - rewrite Ht. exists (page_head ++ giver ++ page_mid ++ receiver ++ t).
    rewrite <- !(assoc_L (++)). reflexivity.
Qed.

Lemma split_at_separator (sep : codepoint) (a b x y : str) :
  sep ∉ a → sep ∉ b → a ++ sep :: x = b ++ sep :: y → a = b ∧ x = y.
Proof.
  revert b. induction a as [|c a IH]; intros [|d b] Ha Hb Heq; cbn in Heq.
  - by injection Heq.
  - injection Heq as <- _. exfalso. apply Hb. by left.
  - injection Heq as -> _. exfalso. apply Ha. by left.
  - injection Heq as -> Heq.
    apply not_elem_of_cons in Ha as [_ Ha], Hb as [_ Hb].
    destruct (IH b Ha Hb Heq) as [-> ->]. done.
Qed.

(** X5. When the givers have no [<], two calls of
    [create_individual_page] return the same page only for the same giver
    and the same receiver. *)
Theorem create_individual_page_injective
    (giver1 receiver1 token1 giver2 receiver2 token2 : str) :
  0x3C ∉ giver1 → 0x3C ∉ giver2 →
  create_individual_page giver1 receiver1 token1
  = create_individual_page giver2 receiver2 token2 →
  giver1 = giver2 ∧ receiver1 = receiver2.
Proof.
  intros H1 H2. rewrite !create_individual_page_eq.
  intros Heq%(inj Some)%app_inv_head.
  destruct page_brackets as (_ & Hmh & _ & _).
  destruct page_mid as [|c mid] eqn:Hmid; [discriminate Hmh|].
  injection Hmh as ->. cbn [app] in Heq.
  apply split_at_separator in Heq as [-> Heq]; [|done..].
  split; [done|]. by apply app_inv_head, app_inv_tail in Heq.
Qed.

Lemma create_individual_page_injective_witness :
  py "Annie" = py "Annie" ∧ py "Oscar" = py "Oscar".
Proof.
  apply (create_individual_page_injective
           (py "Annie") (py "Oscar") (py "aaaaaaaa")
           (py "Annie") (py "Oscar") (py "bbbbbbbb")).
  - vm_compute. intros Hin%list_elem_of_In. cbn in Hin. intuition discriminate.
  - vm_compute. intros Hin%list_elem_of_In. cbn in Hin. intuition discriminate.
  - rewrite !create_individual_page_eq. reflexivity.
Defined.

(** X6. The landing page names no participant but Julien, the contact,
    who is named once. *)
Theorem landing_page_names (name : str) :
  name ∈ PARTICIPANTS →
  occurrences name create_landing_page
  = if bool_decide (name = py "Julien") then 1%nat else 0%nat.
Proof.
  intros Hin%list_elem_of_In. apply Nat.eqb_eq. revert name Hin.
  apply forallb_forall. vm_compute. reflexivity.
Qed.

Lemma landing_page_names_witness :
  occurrences (py "Jeanne") create_landing_page
  = if bool_decide (py "Jeanne" = py "Julien") then 1%nat else 0%nat.
Proof.
  apply landing_page_names. apply list_elem_of_In. vm_compute. tauto.
Defined.

(** ** More on [generate_matches] *)

Lemma no_self_match_valid (gs rs : list str) i :
  (i + length gs ≤ length rs)%nat →
  has_self_match gs (drop i rs) = false → valid i gs rs = Return true.
Proof.
  intros Hlen Hm. destruct (valid_in_range gs rs i Hlen) as [[|] Hv]; [done|].
  destruct (has_self_match gs (drop i rs)) eqn:Hself; [done|].
  revert i Hlen Hv Hself. clear Hm.
  induction gs as [|giver rest IH]; intros i Hlen Hv Hself; [done|].
  cbn [valid length] in *.
  destruct (rs !! i) as [r|] eqn:Hr; [|done].
  rewrite (drop_S _ _ _ Hr) in Hself. unfold has_self_match in Hself.
  cbn in Hself. apply orb_false_elim in Hself as [Hne Hself].
  apply bool_decide_eq_false in Hne.
  destruct (decide (giver = r)); [done|].
  apply (IH (S i)); [lia|done|done].
Qed.

Lemma filled_values (gs rs : list str) :
  ∀ i m m', filled i gs rs m = Return m' →
    ∀ p r, m' !! p = Some r → m !! p = Some r ∨ (p ∈ gs ∧ r ∈ rs).
Proof.
  induction gs as [|giver rest IH]; intros i m m' Hf p r Hp;
    cbn [filled] in Hf.
  - injection Hf as <-. by left.
  - destruct (rs !! i) as [r0|] eqn:Hr; [|done].
    destruct (IH _ _ _ Hf p r Hp) as [Hm|[Hin Hrin]].
    + destruct (decide (giver = p)) as [->|Hne].
      * rewrite lookup_insert_eq in Hm. injection Hm as ->. right.
        split; [by left|]. by eapply list_elem_of_lookup_2.
      * rewrite lookup_insert_ne in Hm by done. by left.
    + right. split; [by right|done].
Qed.

Section MatcherExtras.
Context {G : Type} `{Random G} `{!RandomLaws G}.

(** A run of [generate_matches], with what it leaves in the store. *)
Lemma generate_matches_store_run (participants : loc) (l : list str)
    (σ σ' : state G) (o : outcome (gmap str str)) :
  heap σ !! participants = Some l →
  generate_matches participants σ = (o, σ') →
  ∃ rs', rs' ≡ₚ l ∧ heap σ' = heap σ ++ [rs'; l]
    ∧ match o with
      | Return m => valid 0 l rs' = Return true ∧ filled 0 l rs' ∅ = Return m
      | Raise _ => True
      end.
Proof.
  intros Hl Hrun. rewrite (generate_matches_run _ _ _ Hl) in Hrun.
  pose proof (search_perm max_attempts l l ∅ (rng σ)) as Hperm.
  destruct (search max_attempts l l ∅ (rng σ)) as [[[o' rs'] g'] k] eqn:Hs.
  injection Hrun as -> <-. cbn in Hperm. exists rs'.
  split; [done|]. split; [done|].
  apply search_outcome in Hs. by destruct o.
Qed.

Lemma generate_matches_zip (participants : loc) (l : list str)
    (σ σ' : state G) (matches : gmap str str) :
  heap σ !! participants = Some l → NoDup l →
  generate_matches participants σ = (Return matches, σ') →
  ∃ rs', rs' ≡ₚ l ∧ matches = list_to_map (zip l rs')
    ∧ has_self_match l rs' = false.
Proof.
  intros Hl Hnd Hrun.
  destruct (generate_matches_store_run _ _ _ _ _ Hl Hrun)
    as (rs' & Hperm & _ & Hv & Hf).
  exists rs'. split; [done|]. split.
  - apply (filled_list_to_map _ _ Hnd) in Hf. rewrite drop_0 in Hf.
    by rewrite (right_id_L ∅ (∪)) in Hf.
  - by apply (valid_no_self_match l rs' 0).
Qed.

(** X7. Whatever its outcome, [generate_matches] leaves the store with
    exactly two lists more than before: its [receivers] copy, which holds
    a permutation of the input, then its [givers] copy, equal to the
    input. *)
Theorem generate_matches_store (participants : loc) (l : list str)
    (σ σ' : state G) (o : outcome (gmap str str)) :
  heap σ !! participants = Some l →
  generate_matches participants σ = (o, σ') →
  ∃ receivers, receivers ≡ₚ l ∧ heap σ' = heap σ ++ [receivers; l].
Proof.
  intros Hl Hrun.
  destruct (generate_matches_store_run _ _ _ _ _ Hl Hrun)
    as (rs' & Hperm & Hheap & _).
  by exists rs'.
Qed.

(** X8. Over distinct participants a returned mapping is one-to-one and
    onto: no two givers have the same receiver, and every participant is
    the receiver of a participant. *)
Theorem generate_matches_bijective (participants : loc) (l : list str)
    (σ σ' : state G) (matches : gmap str str) :
  heap σ !! participants = Some l → NoDup l →
  generate_matches participants σ = (Return matches, σ') →
  (∀ p q r, matches !! p = Some r → matches !! q = Some r → p = q)
  ∧ (∀ r, r ∈ l → ∃ p, p ∈ l ∧ matches !! p = Some r).
Proof.
  intros Hl Hnd Hrun.
  destruct (generate_matches_zip _ _ _ _ _ Hl Hnd Hrun)
    as (rs' & Hperm & -> & _).
  pose proof (Permutation_length Hperm) as Hlen.
  assert (Hfst : (zip l rs').*1 = l) by (apply fst_zip; lia).
  assert (Hnd' : NoDup rs') by (by rewrite Hperm).
  split.
  - intros p q r Hp Hq.
    apply elem_of_list_to_map_2, list_elem_of_lookup in Hp as [i Hi].
    apply elem_of_list_to_map_2, list_elem_of_lookup in Hq as [j Hj].
    apply lookup_zip_with_Some in Hi as (p' & r' & [= <- <-] & Hpi & Hri).
    apply lookup_zip_with_Some in Hj as (q' & r'' & [= <- <-] & Hqj & Hrj).
    assert (i = j) as -> by (by eapply NoDup_lookup).
    congruence.
  - intros r Hr. rewrite <- Hperm in Hr.
    apply list_elem_of_lookup in Hr as [i Hi].
    destruct (lookup_lt_is_Some_2 l i) as [p Hp].
    { rewrite <- Hlen. by eapply lookup_lt_Some. }
    exists p. split; [by eapply list_elem_of_lookup_2|].
    apply elem_of_list_to_map_1; [by rewrite Hfst|].
    apply list_elem_of_lookup. exists i.
    apply lookup_zip_with_Some. by exists p, r.
Qed.

(** X9. For any input list, with duplicates or not, the keys of a
    returned mapping are the names of the list, and every pair of the
    mapping joins two names of the list. *)
Theorem generate_matches_closed (participants : loc) (l : list str)
    (σ σ' : state G) (matches : gmap str str) :
  heap σ !! participants = Some l →
  generate_matches participants σ = (Return matches, σ') →
  dom matches = list_to_set l
  ∧ ∀ p r, matches !! p = Some r → p ∈ l ∧ r ∈ l.
Proof.
  intros Hl Hrun.
  destruct (generate_matches_store_run _ _ _ _ _ Hl Hrun)
    as (rs' & Hperm & _ & Hv & Hf).
  split.
  - apply set_eq. intros p. rewrite elem_of_dom, elem_of_list_to_set.
    destruct (filled_lookup _ _ _ _ _ Hv Hf p) as [Hin Hout]. split.
    + intros [r Hr]. destruct (decide (p ∈ l)) as [|Hnin]; [done|].
      rewrite (Hout Hnin), lookup_empty in Hr. done.
    + intros Hp. destruct (Hin Hp) as (r & -> & _). by eexists.
  - intros p r Hp.
    destruct (filled_values _ _ _ _ _ Hf p r Hp) as [Hempty|[? ?]].
    + by rewrite lookup_empty in Hempty.
    + split; [done|]. by rewrite <- Hperm.
Qed.

Lemma search_returns_iff n (gs rs : list str) m (g : G) :
  length rs = length gs →
  (∃ m', (search n gs rs m g).1.1.1 = Return m')
  ↔ existsb (λ c, negb (has_self_match gs c)) (candidates n rs g) = true.
Proof.
  revert rs g. induction n as [|n IH]; intros rs g Hlen;
    cbn [search candidates].
  - cbn [fst snd existsb]. split.
    + intros [m' Hm']. discriminate Hm'.
    + intros Hf. discriminate Hf.
  - pose proof (shuffle_perm rs g) as Hperm.
    destruct (shuffle rs g) as [rs1 g1]. cbn in Hperm.
    assert (Hlen1 : length rs1 = length gs)
      by (by rewrite (Permutation_length Hperm)).
    cbn [existsb].
    destruct (has_self_match gs rs1) eqn:Hself.
    + rewrite (has_self_match_valid gs rs1 0) by (done || cbn; lia).
      specialize (IH rs1 g1 Hlen1).
      destruct (search n gs rs1 m g1) as [[[o r] g2] k]. cbn in *.
      by rewrite IH.
    + rewrite (no_self_match_valid gs rs1 0) by (done || cbn; lia).
      cbn. split; [done|]. intros _.
      destruct (filled_in_range gs rs1 0 m) as [m' ->]; [cbn; lia|].
      by exists m'.
Qed.

(** X10. [generate_matches] returns a mapping if and only if one of the
    first 1000 candidates of the run has no self-match. *)
Theorem generate_matches_returns_iff (participants : loc) (l : list str)
    (σ : state G) :
  heap σ !! participants = Some l →
  (∃ matches σ', generate_matches participants σ = (Return matches, σ'))
  ↔ existsb (λ c, negb (has_self_match l c))
      (candidates max_attempts l (rng σ)) = true.
Proof.
  intros Hl. rewrite (generate_matches_run _ _ _ Hl).
  rewrite <- (search_returns_iff max_attempts l l ∅ (rng σ)) by done.
  destruct (search max_attempts l l ∅ (rng σ)) as [[[o rs'] g'] k]. cbn.
  split.
  - intros (m & σ' & [= -> _]). by exists m.
  - intros [m ->]. by eexists _, _.
Qed.

Lemma candidates_length n (x : list str) (g : G) :
  length (candidates n x g) = n.
Proof.
  revert x g. induction n as [|n IH]; intros x g; cbn [candidates]; [done|].
  destruct (shuffle x g) as [x1 g1]. cbn. by rewrite IH.
Qed.

Lemma search_first_valid k :
  ∀ n (gs rs : list str) m (g : G) cs c,
    (k < n)%nat →
    candidates (S k) rs g = cs ++ [c] →
    Forall (λ c', length c' = length gs ∧ has_self_match gs c' = true) cs →
    valid 0 gs c = Return true →
    ∃ g', search n gs rs m g = (filled 0 gs c m, c, g', S k).
Proof.
  induction k as [|k IH]; intros [|n] gs rs m g cs c Hn Hc Hall Hv;
    try lia; cbn [search]; cbn [candidates] in Hc;
    destruct (shuffle rs g) as [rs1 g1].
  - destruct cs as [|? [|? ?]]; try done. injection Hc as <-.
    rewrite Hv. by eexists.
  - pose proof (candidates_length (S k) rs1 g1) as Hlen.
    destruct cs as [|c1 cs].
    { injection Hc as _ Hc. change (candidates (S k) rs1 g1 = []) in Hc.
      by rewrite Hc in Hlen. }
    injection Hc as <- Hc. change (candidates (S k) rs1 g1 = cs ++ [c]) in Hc.
    apply Forall_cons in Hall as [[Hl1 Hs1] Hall].
    rewrite (has_self_match_valid gs rs1 0) by (done || cbn; lia).
    destruct (IH n gs rs1 m g1 cs c) as [g' ->]; try done; [lia|].
    by eexists.
Qed.

(** X11. If the candidate of attempt [k + 1], with [k < 1000], is the
    first without a self-match, [generate_matches] returns, after exactly
    [k + 1] shuffles, the mapping that pairs the participants in order
    with that candidate, and the candidate is what its [receivers] copy
    holds. *)
Theorem generate_matches_first_valid (participants : loc) (l : list str)
    (σ : state G) (k : nat) (cs : list (list str)) (c : list str) :
  heap σ !! participants = Some l → NoDup l →
  (k < max_attempts)%nat →
  candidates (S k) l (rng σ) = cs ++ [c] →
  forallb (has_self_match l) cs = true →
  has_self_match l c = false →
  ∃ σ', generate_matches participants σ
          = (Return (list_to_map (zip l c)), σ')
    ∧ shuffles σ' = (shuffles σ + S k)%nat
    ∧ heap σ' = heap σ ++ [c; l].
Proof.
  intros Hl Hnd Hk Hc Hcs Hself. rewrite (generate_matches_run _ _ _ Hl).
  pose proof (candidates_perm (S k) l (rng σ)) as Hperm.
  rewrite Hc in Hperm. apply Forall_app in Hperm as [Hpcs Hpc].
  apply Forall_inv in Hpc.
  pose proof (Permutation_length Hpc) as Hlen.
  destruct (search_first_valid k max_attempts l l ∅ (rng σ) cs c)
    as [g' ->]; try done.
  - rewrite Forall_forall in Hpcs. apply Forall_forall. intros c' Hin.
    split; [apply Permutation_length, Hpcs, Hin|].
    rewrite forallb_forall in Hcs. by apply Hcs, list_elem_of_In.
  - apply (no_self_match_valid l c 0); [cbn; lia|done].
  - destruct (filled_in_range l c 0 ∅) as [m Hm]; [cbn; lia|].
    rewrite Hm. apply (filled_list_to_map _ _ Hnd) in Hm.
    rewrite drop_0, (right_id_L ∅ (∪)) in Hm. subst m. by eexists.
Qed.
End MatcherExtras.

Lemma generate_matches_store_witness :
  ∃ receivers, receivers ≡ₚ three ∧ heap st_three' = heap st_three ++ [receivers; three].
Proof.
  apply (generate_matches_store 0 three st_three st_three' (Return matches_three)).
  - reflexivity.
  - vm_compute. reflexivity.
Defined.

Lemma generate_matches_bijective_witness :
  (∀ p q r, matches_three !! p = Some r → matches_three !! q = Some r → p = q)
  ∧ (∀ r, r ∈ three → ∃ p, p ∈ three ∧ matches_three !! p = Some r).
Proof.
  apply (generate_matches_bijective 0 three st_three st_three' matches_three).
  - reflexivity.
  - apply NoDup_ListNoDup. vm_compute.
    repeat constructor; vm_compute; intuition discriminate.
  - vm_compute. reflexivity.
Defined.

Lemma generate_matches_closed_witness :
  dom matches_three = list_to_set three
  ∧ ∀ p r, matches_three !! p = Some r → p ∈ three ∧ r ∈ three.
Proof.
  apply (generate_matches_closed 0 three st_three st_three' matches_three).
  - reflexivity.
  - vm_compute. reflexivity.
Defined.

Lemma generate_matches_returns_iff_witness :
  (∃ matches σ', generate_matches 0 st_three = (Return matches, σ'))
  ↔ existsb (λ c, negb (has_self_match three c))
      (candidates max_attempts three (rng st_three)) = true.
Proof. apply (generate_matches_returns_iff 0 three st_three). reflexivity. Defined.

Lemma generate_matches_first_valid_witness :
  ∃ σ', generate_matches 0 st_three
          = (Return (list_to_map (zip three [py "C"; py "A"; py "B"])), σ')
    ∧ shuffles σ' = (shuffles st_three + 2)%nat
    ∧ heap σ' = heap st_three ++ [[py "C"; py "A"; py "B"]; three].
Proof.
  apply (generate_matches_first_valid 0 three st_three 1 [three]).
  - reflexivity.
  - apply NoDup_ListNoDup. vm_compute.
    repeat constructor; vm_compute; intuition discriminate.
  - unfold max_attempts. lia.
  - vm_compute. reflexivity.
  - vm_compute. reflexivity.
  - vm_compute. reflexivity.
Defined.

(** ** Order and sorting of names *)

Lemma str_lt_asym (a b : str) : str_lt a b = true → str_lt b a = false.
Proof.
  revert b. induction a as [|c a IH]; intros [|d b]; cbn; try done.
  intros [Hlt|[Heq Hab]%andb_prop]%orb_prop.
  - apply N.ltb_lt in Hlt.
    rewrite (proj2 (N.ltb_ge d c)) by lia.
    rewrite (proj2 (N.eqb_neq d c)) by lia. done.
  - apply N.eqb_eq in Heq as ->. rewrite N.ltb_irrefl, N.eqb_refl. cbn.
    by apply IH.
Qed.

Lemma str_lt_total (a b : str) :
  str_lt a b = false → str_lt b a = false → a = b.
Proof.
  revert b. induction a as [|c a IH]; intros [|d b]; cbn; try done.
  intros [Hcd Hab]%orb_false_elim [Hdc Hba]%orb_false_elim.
  apply N.ltb_ge in Hcd, Hdc. assert (c = d) as -> by lia.
  rewrite N.eqb_refl in Hab, Hba. cbn in Hab, Hba. f_equal. by apply IH.
Qed.

Lemma insert_sorted_perm (key : str) (keys : list str) :
  insert_sorted key keys ≡ₚ key :: keys.
Proof.
  induction keys as [|k keys IH]; cbn; [done|].
  destruct (str_lt k key); [|done]. rewrite IH. apply perm_swap.
Qed.

Lemma sorted_perm (keys : list str) : sorted keys ≡ₚ keys.
Proof.
  induction keys as [|k keys IH]; cbn; [done|].
  by rewrite insert_sorted_perm, IH.
Qed.

Lemma insert_sorted_Sorted (key : str) (keys : list str) :
  Sorted (λ a b, str_lt b a = false) keys →
  Sorted (λ a b, str_lt b a = false) (insert_sorted key keys).
Proof.
  induction 1 as [|k keys Hs IH Hhd]; cbn.
  - by repeat constructor.
  - destruct (str_lt k key) eqn:Hlt.
    + constructor; [done|].
      destruct Hhd as [|k' keys' Hk]; cbn.
      * constructor. by apply str_lt_asym.
      * destruct (str_lt k' key); constructor; [done|by apply str_lt_asym].
    + constructor; [by constructor|]. by constructor.
Qed.

Lemma sorted_Sorted (keys : list str) :
  Sorted (λ a b, str_lt b a = false) (sorted keys).
Proof.
  induction keys as [|k keys IH]; cbn; [constructor|].
  by apply insert_sorted_Sorted.
Qed.

(** Distinct keys come out in strictly ascending order. *)
Lemma sorted_ascending (keys : list str) :
  NoDup keys → Sorted (λ a b, str_lt a b = true) (sorted keys).
Proof.
  intros Hnd. rewrite <- (sorted_perm keys) in Hnd.
  pose proof (sorted_Sorted keys) as Hs.
  induction Hs as [|k l Hs IH Hhd]; [constructor|].
  apply NoDup_cons in Hnd as [Hk Hnd]. constructor; [by apply IH|].
  destruct Hhd as [|k' l' Hk']; constructor.
  destruct (str_lt k k') eqn:Hlt; [done|]. exfalso. apply Hk.
  rewrite (str_lt_total k k' Hlt Hk'). by left.
Qed.

(** ** Dictionaries filled key by key *)

Lemma foldl_insert {A} (entries : list (str * A)) (m : gmap str A) :
  foldl (λ m e, <[e.1 := e.2]> m) m entries
  = list_to_map (reverse entries) ∪ m.
Proof.
  revert m. induction entries as [|[k v] entries IH]; intros m.
  - cbn. by rewrite (left_id_L ∅ (∪)).
  - cbn [foldl fst snd]. rewrite IH, reverse_cons, list_to_map_app. cbn.
    by rewrite <- (assoc_L (∪)), <- insert_union_l, (left_id_L ∅ (∪)).
Qed.

(** ** The loops of [main] *)

Section MainRuns.
Context {G : Type} `{Random G} `{!RandomLaws G} {U : UnicodeData}.
Variable write_ok : list (str * option str) → str * option str → bool.

Lemma main_page_run (giver receiver : str) (σ : state G) :
  ∃ token σ', main_page giver receiver σ
              = (Return (page_file giver receiver token), σ')
    ∧ length token = 8%nat
    ∧ Forall (λ c, is_lower_alnum c = true) token
    ∧ heap σ' = heap σ
    ∧ shuffles σ' = shuffles σ.
Proof.
  destruct (generate_random_string_steps 8 σ)
    as (token & σ' & Hrun & Hlen & Hall & Hheap & Hsh).
  exists token, σ'. split; [|done].
  unfold main_page, bind. by rewrite Hrun.
Qed.

(** One turn of the loop, once the token is drawn: the write either
    fails, which ends the loop, or is recorded. *)
Lemma main_pages_cons (giver receiver token : str) (rest : list (str * str))
    (url_mapping : gmap str url_info) (out : output) (σ σ1 : state G) :
  main_page giver receiver σ = (Return (page_file giver receiver token), σ1) →
  main_pages write_ok ((giver, receiver) :: rest) url_mapping out σ
  = if write_ok (written out) (page_file giver receiver token)
    then main_pages write_ok rest
           (<[giver := (url_entry (giver, receiver) token).2]> url_mapping)
           (Output (written out ++ [page_file giver receiver token])
              (printed out
                 ++ [created_line (page_file giver receiver token).1]))
           σ1
    else (Failed (OSError (page_file giver receiver token).1), out, σ1).
Proof.
  intros Hrun. cbn [main_pages]. unfold io_bind at 1. unfold lift.
  rewrite Hrun. unfold io_bind at 1. unfold write_text at 1.
  cbn [written printed]. rewrite <- surjective_pairing.
  destruct (write_ok (written out) (page_file giver receiver token));
    [|reflexivity].
  unfold io_bind at 1. unfold print at 1. cbn [written printed].
  reflexivity.
Qed.

(** The loop over the pairs: it goes through all of them, or stops at the
    first write the file system refuses. *)
Lemma main_pages_run (pairs : list (str * str)) :
  ∀ (url_mapping : gmap str url_info) (out : output) (σ : state G),
  ∃ tokens σ',
    Forall (λ t, length t = 8%nat
                 ∧ Forall (λ c, is_lower_alnum c = true) t) tokens
    ∧ heap σ' = heap σ
    ∧ shuffles σ' = shuffles σ
    ∧ ((length tokens = length pairs
        ∧ main_pages write_ok pairs url_mapping out σ
          = (Done (foldl (λ m e, <[e.1 := e.2]> m) url_mapping
                     (zip_with url_entry pairs tokens)),
             Output (written out ++ page_files pairs tokens)
               (printed out
                  ++ (created_line <$> (page_files pairs tokens).*1)),
             σ'))
       ∨ ∃ before giver receiver rest token,
           pairs = before ++ (giver, receiver) :: rest
           ∧ length tokens = length before
           ∧ length token = 8%nat
           ∧ Forall (λ c, is_lower_alnum c = true) token
           ∧ write_ok (written out ++ page_files before tokens)
               (page_file giver receiver token) = false
           ∧ main_pages write_ok pairs url_mapping out σ
             = (Failed (OSError (page_file giver receiver token).1),
                Output (written out ++ page_files before tokens)
                  (printed out
                     ++ (created_line <$> (page_files before tokens).*1)),
                σ')).
Proof.
  induction pairs as [|[giver receiver] rest IH]; intros um out σ.
  - exists [], σ. split; [constructor|]. split; [done|]. split; [done|].
    left. split; [done|]. cbn [main_pages page_files zip_with foldl fmap
                                list_fmap].
    rewrite !app_nil_r. by destruct out.
  - destruct (main_page_run giver receiver σ)
      as (token & σ1 & Hrun & Hlen & Hall & Hheap & Hsh).
    pose proof (main_pages_cons giver receiver token rest um out σ σ1 Hrun)
      as Hcons.
    destruct (write_ok (written out) (page_file giver receiver token))
      eqn:Hok.
    + match type of Hcons with _ = main_pages _ rest ?um' ?out' σ1 =>
        destruct (IH um' out' σ1)
          as (tokens & σ' & Halls & Hheap' & Hsh' & Hcases) end.
      exists (token :: tokens), σ'. split; [by constructor|].
      split; [congruence|]. split; [congruence|].
      cbn [written printed] in Hcases.
      destruct Hcases as [[Hlens Hrest]
        |(before & g & r & rest' & tok & Hpairs & Hlens & Htok & Htoks
          & Hfail & Hrest)].
      * left. split; [by cbn [length]; rewrite Hlens|].
        rewrite Hcons, Hrest.
        cbn [zip_with page_files foldl fmap list_fmap fst snd url_entry].
        rewrite <- !(assoc_L (++)). reflexivity.
      * right. exists ((giver, receiver) :: before), g, r, rest', tok.
        split; [by rewrite Hpairs|].
        split; [by cbn [length]; rewrite Hlens|]. split; [done|].
        split; [done|].
        cbn [zip_with page_files fmap list_fmap fst snd].
        rewrite <- !(assoc_L (++)) in Hfail.
        split; [exact Hfail|]. rewrite Hcons, Hrest.
        rewrite <- !(assoc_L (++)). reflexivity.
    + exists [], σ1. split; [constructor|]. split; [done|]. split; [done|].
      right. exists [], giver, receiver, rest, token.
      cbn [page_files zip_with fmap list_fmap app]. rewrite !app_nil_r.
      do 5 (split; [done|]).
      rewrite Hcons. by destruct out.
Qed.

Lemma main_summary_run (keys : list str) (url_mapping : gmap str url_info) :
  Forall (λ k, is_Some (url_mapping !! k)) keys →
  ∀ (out : output) (σ : state G),
    main_summary keys url_mapping out σ
    = (Done (), Output (written out)
                  (printed out ++ (summary_of url_mapping <$> keys)), σ).
Proof.
  induction 1 as [|k keys [info Hk] _ IH]; intros out σ.
  - cbn. rewrite app_nil_r. by destruct out.
  - cbn [main_summary]. rewrite Hk. unfold io_bind, print.
    rewrite IH. cbn [written printed fmap list_fmap].
    unfold summary_of at 2. rewrite Hk.
    by rewrite <- (assoc_L (++)).
Qed.
End MainRuns.
(** ** File names *)

Lemma page_file_name_inj {U : UnicodeData}
    (giver1 receiver1 token1 giver2 receiver2 token2 : str) :
  length token1 = length token2 →
  (page_file giver1 receiver1 token1).1 = (page_file giver2 receiver2 token2).1 →
  generate_filename giver1 = generate_filename giver2 ∧ token1 = token2.
Proof.
  intros Hlen Heq. cbn [page_file fst] in Heq.
  apply app_inj_2 in Heq as [Hbase Hrest].
  - split; [done|]. apply app_inv_head in Hrest. by apply app_inv_tail in Hrest.
  - rewrite !length_app. lia.
Qed.

Lemma page_file_name_length {U : UnicodeData} (giver receiver token : str) :
  length token = 8%nat →
  (14 ≤ length (page_file giver receiver token).1)%nat.
Proof.
  intros Hlen. cbn [page_file fst]. rewrite !length_app, Hlen.
  change (length (py "-")) with 1%nat.
  change (length (py ".html")) with 5%nat. lia.
Qed.

Lemma url_entries_fst {U : UnicodeData} (pairs : list (str * str))
    (tokens : list str) :
  length tokens = length pairs →
  (zip_with url_entry pairs tokens).*1 = pairs.*1.
Proof.
  revert tokens. induction pairs as [|pair pairs IH]; intros [|t tokens] Hlen;
    try done. cbn. f_equal. apply IH. by injection Hlen.
Qed.

(** The dict [main] builds has the givers for keys, and holds for each
    the name and the address of the file written for that giver. *)
Lemma url_mapping_entries {U : UnicodeData} (pairs : list (str * str))
    (tokens : list str) :
  length tokens = length pairs → NoDup pairs.*1 →
  let url_mapping :=
    foldl (λ m e, <[e.1 := e.2]> m) (∅ : gmap str url_info)
      (zip_with url_entry pairs tokens) in
  (map_to_list url_mapping).*1 ≡ₚ pairs.*1
  ∧ ∀ giver info, url_mapping !! giver = Some info →
      ∃ i receiver token,
        pairs !! i = Some (giver, receiver) ∧ tokens !! i = Some token
        ∧ info = (url_entry (giver, receiver) token).2.
Proof.
  intros Hlen Hnd url_mapping. subst url_mapping.
  rewrite foldl_insert, (right_id_L ∅ (∪)).
  assert (Hnd' : NoDup (reverse (zip_with url_entry pairs tokens)).*1).
  { rewrite fmap_reverse, url_entries_fst by done.
    by rewrite reverse_Permutation. }
  split.
  - rewrite map_to_list_to_map by done.
    rewrite fmap_reverse, reverse_Permutation. by rewrite url_entries_fst.
  - intros giver info Hin%elem_of_list_to_map_2.
    rewrite elem_of_reverse in Hin.
    apply list_elem_of_lookup in Hin as [i Hi].
    apply lookup_zip_with_Some in Hi as ([g r] & token & Heq & Hp & Ht).
    injection Heq as -> ->. by exists i, r, token.
Qed.

(** A file name has a slash only if the giver's normalised name has. *)
Lemma page_file_name_plain {U : UnicodeData} (giver receiver token : str) :
  Forall (λ c, is_lower_alnum c = true) token →
  (0x2F ∉ generate_filename giver) →
  0x2F ∉ (page_file giver receiver token).1.
Proof.
  intros Htoken Hbase. cbn [page_file fst].
  rewrite !not_elem_of_app. split; [done|]. split; [|split].
  - by intros [=]%list_elem_of_singleton.
  - intros Hin. by apply (proj1 (Forall_forall _ _) Htoken) in Hin.
  - intros Hin%list_elem_of_In. vm_compute in Hin.
    repeat destruct Hin as [[=]|Hin]. done.
Qed.


Section MainProperties.
Context {G : Type} `{Random G} `{!RandomLaws G} {U : UnicodeData}.
Variable items : gmap str str → list (str * str).
Variable write_ok : list (str * option str) → str * option str → bool.

(** A run of [main] once [generate_matches] has returned: to the end, or
    up to the write of [index.html] or of a page that the file system
    refuses. *)
Lemma main_cases (participants : loc) (out : output) (σ σ1 : state G)
    (matches : gmap str str) :
  generate_matches participants σ = (Return matches, σ1) →
  ∃ tokens σ',
    let pairs := items matches in
    let url_mapping :=
      foldl (λ m e, <[e.1 := e.2]> m) (∅ : gmap str url_info)
        (zip_with url_entry pairs tokens) in
    Forall (λ t, length t = 8%nat
                 ∧ Forall (λ c, is_lower_alnum c = true) t) tokens
    ∧ heap σ' = heap σ1
    ∧ shuffles σ' = shuffles σ1
    ∧ ((length tokens = length pairs
        ∧ main items write_ok participants out σ
          = (Done (),
             Output (written out ++ page_files pairs tokens
                       ++ [(py "index.html", Some create_landing_page)])
               (printed out ++ opening_lines
                  ++ pages_heading
                     :: (created_line <$> (page_files pairs tokens).*1)
                  ++ closing_lines (size matches)
                  ++ (summary_of url_mapping
                        <$> sorted (map_to_list url_mapping).*1)
                  ++ [last_line]),
             σ'))
       ∨ (length tokens = length pairs
          ∧ write_ok (written out ++ page_files pairs tokens)
              (py "index.html", Some create_landing_page) = false
          ∧ main items write_ok participants out σ
            = (Failed (OSError (py "index.html")),
               Output (written out ++ page_files pairs tokens)
                 (printed out ++ opening_lines
                    ++ pages_heading
                       :: (created_line <$> (page_files pairs tokens).*1)
                    ++ [0x0A :: py "Creating landing page..."]),
               σ'))
       ∨ ∃ before giver receiver rest token,
           pairs = before ++ (giver, receiver) :: rest
           ∧ length tokens = length before
           ∧ length token = 8%nat
           ∧ Forall (λ c, is_lower_alnum c = true) token
           ∧ write_ok (written out ++ page_files before tokens)
               (page_file giver receiver token) = false
           ∧ main items write_ok participants out σ
             = (Failed (OSError (page_file giver receiver token).1),
                Output (written out ++ page_files before tokens)
                  (printed out ++ opening_lines
                     ++ pages_heading
                        :: (created_line
                              <$> (page_files before tokens).*1)),
                σ')).
Proof.
  intros Hgm.
  remember (main items write_ok participants out σ) as run eqn:Hmain.
  unfold main in Hmain.
  do 3 (unfold io_bind at 1 in Hmain). unfold print at 1 in Hmain.
  unfold print at 1 in Hmain. unfold lift at 1 in Hmain. rewrite Hgm in Hmain.
  do 2 (unfold io_bind at 1 in Hmain). unfold print at 1 in Hmain.
  cbn [written printed] in Hmain.
  match type of Hmain with context [main_pages write_ok ?pairs ?um ?out' σ1] =>
    destruct (main_pages_run write_ok pairs um out' σ1)
      as (tokens & σ' & Hall & Hheap & Hsh & Hcases) end.
  exists tokens, σ'. cbn zeta. do 3 (split; [done|]).
  cbn [written printed] in Hcases.
  destruct Hcases as [[Hlen Hrun]
    |(before & g & r & rest & token & Hpairs & Hlen & Htoken & Htokens & Hfail
      & Hrun)].
  - rewrite Hrun in Hmain. set (url_mapping := foldl _ _ _) in *.
    unfold io_bind at 1 in Hmain. unfold print at 1 in Hmain.
    cbn [written printed] in Hmain.
    unfold io_bind at 1 in Hmain. unfold write_text at 1 in Hmain.
    cbn [written printed] in Hmain.
    destruct (write_ok (written out ++ page_files (items matches) tokens)
                (py "index.html", Some create_landing_page)) eqn:Hindex.
    + left. split; [done|].
      unfold io_bind, print in Hmain. cbn [written printed] in Hmain.
      rewrite main_summary_run in Hmain.
      * cbn [written printed] in Hmain. rewrite Hmain. do 3 f_equal.
        -- by rewrite <- !(assoc_L (++)).
        -- unfold opening_lines, closing_lines, pages_heading, last_line.
           rewrite <- !(assoc_L (++)). reflexivity.
      * apply Forall_forall. intros k Hk. rewrite sorted_perm in Hk.
        apply list_elem_of_fmap in Hk as ([k' info] & -> & Hk).
        apply elem_of_map_to_list in Hk. by exists info.
    + right. left. split; [done|]. split; [done|]. rewrite Hmain.
      do 3 f_equal. unfold opening_lines, pages_heading.
      rewrite <- !(assoc_L (++)). reflexivity.
  - right. right. exists before, g, r, rest, token.
    do 5 (split; [done|]). rewrite Hmain, Hrun.
    do 3 f_equal. unfold opening_lines, pages_heading.
    rewrite <- !(assoc_L (++)). reflexivity.
Qed.

(** The run of [main] when the matching succeeds and the file system
    takes the writes. *)
Lemma main_run (participants : loc) (out : output) (σ σ1 : state G)
    (matches : gmap str str) :
  generate_matches participants σ = (Return matches, σ1) →
  (∀ history giver receiver token,
     (giver, receiver) ∈ items matches → length token = 8%nat →
     Forall (λ c, is_lower_alnum c = true) token →
     write_ok history (page_file giver receiver token) = true) →
  (∀ history,
     write_ok history (py "index.html", Some create_landing_page) = true) →
  ∃ tokens σ',
    let pairs := items matches in
    let url_mapping :=
      foldl (λ m e, <[e.1 := e.2]> m) (∅ : gmap str url_info)
        (zip_with url_entry pairs tokens) in
    main items write_ok participants out σ
    = (Done (),
       Output (written out ++ page_files pairs tokens
                 ++ [(py "index.html", Some create_landing_page)])
         (printed out ++ opening_lines
            ++ pages_heading :: (created_line <$> (page_files pairs tokens).*1)
            ++ closing_lines (size matches)
            ++ (summary_of url_mapping <$> sorted (map_to_list url_mapping).*1)
            ++ [last_line]),
       σ')
    ∧ length tokens = length pairs
    ∧ Forall (λ t, length t = 8%nat
                   ∧ Forall (λ c, is_lower_alnum c = true) t) tokens
    ∧ heap σ' = heap σ1
    ∧ shuffles σ' = shuffles σ1.
Proof.
  intros Hgm Hpages Hindex.
  destruct (main_cases participants out σ σ1 matches Hgm)
    as (tokens & σ' & Hall & Hheap & Hsh & Hcases).
  exists tokens, σ'. cbn zeta.
  destruct Hcases as [[Hlen Hrun]|[(_ & Hfail & _)
    |(before & g & r & rest & token & Hpairs & _ & Htoken & Htokens & Hfail
      & _)]].
  - done.
  - by rewrite Hindex in Hfail.
  - rewrite (Hpages _ g r token) in Hfail; [done| |done|done].
    rewrite Hpairs. apply elem_of_app. right. by left.
Qed.

(** The run of [main] when [generate_matches] raises. *)
Lemma main_raise (participants : loc) (out : output) (σ σ1 : state G)
    (e : exn) :
  generate_matches participants σ = (Raise e, σ1) →
  main items write_ok participants out σ
  = (Failed (Raised e),
     Output (written out) (printed out ++ opening_lines), σ1).
Proof.
  intros Hgm. unfold main.
  do 3 (unfold io_bind at 1). unfold print at 1. unfold print at 1.
  unfold lift at 1. rewrite Hgm. cbn [written printed].
  unfold opening_lines. by rewrite <- (assoc_L (++)).
Qed.
End MainProperties.
(** ** [main] *)

Lemma page_names (giver receiver token : str) :
  giver ∈ PARTICIPANTS → receiver ∈ PARTICIPANTS → giver ≠ receiver →
  ∃ html, create_individual_page giver receiver token = Some html
    ∧ occurrences giver html = 1%nat
    ∧ occurrences receiver html = 1%nat
    ∧ ∀ other, other ∈ PARTICIPANTS → other ≠ giver → other ≠ receiver →
        occurrences other html = 0%nat.
Proof.
  intros Hg Hr Hne. eexists. split; [apply create_individual_page_eq|].
  split; [|split].
  - rewrite (page_occurrences giver giver receiver Hg).
    rewrite (name_in_itself giver Hg).
    by rewrite (name_in_other giver receiver Hg Hr Hne).
  - rewrite (page_occurrences receiver giver receiver Hr).
    rewrite (name_in_itself receiver Hr).
    by rewrite (name_in_other receiver giver Hr Hg (not_eq_sym Hne)).
  - intros other Ho Hog Hor.
    rewrite (page_occurrences other giver receiver Ho).
    rewrite (name_in_other other giver Ho Hg Hog).
    by rewrite (name_in_other other receiver Ho Hr Hor).
Qed.

Lemma participants_distinct : NoDup PARTICIPANTS.
Proof. apply (bool_decide_unpack (NoDup PARTICIPANTS)). vm_compute. exact I. Qed.

Lemma returned_name {G A B} (file : A * B) (name : A) (content : B)
    (σ σ' : state G) :
  (Return file, σ) = (Return (name, content), σ') → file.1 = name.
Proof. by intros [= -> _]. Qed.

Section MainTheorems.
Context {G : Type} `{Random G} `{!RandomLaws G} {U : UnicodeData}.

(** X12. If two turns of the loop of [main] compute the same file name,
    as a string, their givers have the same normalised name: the token
    has a fixed length, so givers whose normalised names differ always
    get file names that differ.  This is about the names passed to
    [write_text], not about the files the names denote. *)
Theorem main_page_filename_injective
    (giver1 receiver1 giver2 receiver2 filename : str)
    (content1 content2 : option str) (σ1 σ1' σ2 σ2' : state G) :
  main_page giver1 receiver1 σ1 = (Return (filename, content1), σ1') →
  main_page giver2 receiver2 σ2 = (Return (filename, content2), σ2') →
  generate_filename giver1 = generate_filename giver2.
Proof.
  intros Hrun1 Hrun2.
  destruct (main_page_run giver1 receiver1 σ1)
    as (t1 & ? & Heq1 & Hlen1 & _).
  destruct (main_page_run giver2 receiver2 σ2)
    as (t2 & ? & Heq2 & Hlen2 & _).
  rewrite Heq1 in Hrun1. rewrite Heq2 in Hrun2.
  apply returned_name in Hrun1, Hrun2.
  apply (page_file_name_inj _ receiver1 t1 _ receiver2 t2).
  - by rewrite Hlen1, Hlen2.
  - by rewrite Hrun1, Hrun2.
Qed.

Variable write_ok : list (str * option str) → str * option str → bool.


Variable items : gmap str str → list (str * str).
Hypothesis items_perm : ∀ m, items m ≡ₚ map_to_list m.

(** X14. When [generate_matches] raises, [main] fails with that
    exception, having written no file and printed only its two opening
    lines. *)
Theorem main_exhausted (participants : loc) (out : output)
    (σ σ' : state G) (e : exn) :
  generate_matches participants σ = (Raise e, σ') →
  main items write_ok participants out σ
  = (Failed (Raised e), Output (written out) (printed out ++ opening_lines),
     σ').
Proof. apply main_raise. Qed.

(** The pairs [main] visits after a successful matching. *)
Lemma main_pairs (participants : loc) (l : list str) (σ σ1 : state G)
    (matches : gmap str str) :
  heap σ !! participants = Some l → NoDup l →
  generate_matches participants σ = (Return matches, σ1) →
  (items matches).*1 ≡ₚ l
  ∧ size matches = length l
  ∧ ∀ giver receiver,
      (giver, receiver) ∈ items matches ↔ matches !! giver = Some receiver.
Proof.
  intros Hl Hnd Hgm.
  destruct (generate_matches_zip _ _ _ _ _ Hl Hnd Hgm)
    as (rs' & Hperm & Hm & _).
  pose proof (Permutation_length Hperm) as Hlen.
  assert (Hfst : (zip l rs').*1 = l) by (apply fst_zip; lia).
  assert (Hml : map_to_list matches ≡ₚ zip l rs').
  { rewrite Hm. apply map_to_list_to_map. by rewrite Hfst. }
  split; [by rewrite items_perm, Hml, Hfst|]. split.
  - rewrite <- length_map_to_list, Hml, length_zip_with. lia.
  - intros giver receiver. rewrite items_perm. apply elem_of_map_to_list.
Qed.

(** X15. When the matching succeeds on distinct participants whose
    normalised names are distinct, and the file system takes every write
    [main] attempts, [main] ends normally, having written one page per
    participant and then [index.html] with the landing page; the names
    of the pages are pairwise distinct strings, none is [index.html], and
    none has a slash if no normalised name has one; every pair of the
    mapping has its page and every page is that of a pair; writing the
    pages changes no list and makes no shuffle. *)
Theorem main_files (participants : loc) (l : list str) (out : output)
    (σ σ1 : state G) (matches : gmap str str) :
  heap σ !! participants = Some l → NoDup l →
  NoDup (generate_filename <$> l) →
  accepts write_ok l →
  generate_matches participants σ = (Return matches, σ1) →
  ∃ pages out' σ',
    main items write_ok participants out σ = (Done (), out', σ')
    ∧ written out'
      = written out ++ pages ++ [(py "index.html", Some create_landing_page)]
    ∧ length pages = length l
    ∧ NoDup pages.*1
    ∧ (py "index.html" ∉ pages.*1)
    ∧ (Forall (λ giver, 0x2F ∉ generate_filename giver) l →
       Forall (λ name, 0x2F ∉ name) pages.*1)
    ∧ (∀ giver receiver, matches !! giver = Some receiver →
         ∃ token, page_file giver receiver token ∈ pages)
    ∧ (∀ file, file ∈ pages →
         ∃ giver receiver token,
           matches !! giver = Some receiver
           ∧ file = page_file giver receiver token
           ∧ length token = 8%nat)
    ∧ heap σ' = heap σ1
    ∧ shuffles σ' = shuffles σ1.
Proof.
  intros Hl Hnd Hbases [Hpages Hindex] Hgm.
  destruct (main_pairs _ _ _ _ _ Hl Hnd Hgm) as (Hkeys & Hsize & Hpairs).
  assert (Hgiver : ∀ giver receiver,
            (giver, receiver) ∈ items matches → giver ∈ l).
  { intros giver receiver Hin. rewrite <- Hkeys.
    apply list_elem_of_fmap. by exists (giver, receiver). }
  destruct (main_run items write_ok participants out σ σ1 matches Hgm)
    as (tokens & σ' & Hrun & Hlen & Hall & Hheap & Hsh); [|done|].
  { intros history giver receiver token Hin Htoken Htokens.
    apply Hpages; [by eapply Hgiver|done|done]. }
  cbn zeta in Hrun. set (pairs := items matches) in *.
  assert (Hndp : NoDup pairs.*1) by (by rewrite Hkeys).
  assert (Hfile : ∀ i file, page_files pairs tokens !! i = Some file →
            ∃ giver receiver token,
              pairs !! i = Some (giver, receiver) ∧ tokens !! i = Some token
              ∧ file = page_file giver receiver token
              ∧ length token = 8%nat
              ∧ Forall (λ c, is_lower_alnum c = true) token).
  { intros i file Hi.
    apply lookup_zip_with_Some in Hi as ([g r] & t & -> & Hp & Ht).
    exists g, r, t. do 3 (split; [done|]).
    rewrite Forall_lookup in Hall. by destruct (Hall i t Ht). }
  eexists (page_files pairs tokens), _, σ'. split; [exact Hrun|].
  cbn [written]. split; [done|]. split.
  { unfold page_files. rewrite length_zip_with, Hlen, Nat.min_id.
    by rewrite <- (Permutation_length Hkeys), length_fmap. }
  split.
  { apply NoDup_alt. intros i j name Hi Hj.
    apply list_lookup_fmap_Some in Hi as (fi & Hni & Hfi).
    apply list_lookup_fmap_Some in Hj as (fj & Hnj & Hfj).
    destruct (Hfile i fi Hfi) as (gi & ri & ti & Hpi & _ & -> & Hti & _).
    destruct (Hfile j fj Hfj) as (gj & rj & tj & Hpj & _ & -> & Htj & _).
    destruct (page_file_name_inj gi ri ti gj rj tj) as [Hbase _];
      [by rewrite Hti, Htj|by rewrite <- Hni, <- Hnj|].
    assert (gi = gj) as ->.
    { assert (Hgi : gi ∈ l).
      { apply (Hgiver gi ri). by eapply list_elem_of_lookup_2. }
      assert (Hgj : gj ∈ l).
      { apply (Hgiver gj rj). by eapply list_elem_of_lookup_2. }
      apply list_elem_of_lookup in Hgi as [a Ha], Hgj as [b Hb].
      assert (a = b) as ->; [|congruence].
      apply (NoDup_lookup _ a b (generate_filename gi) Hbases);
        rewrite list_lookup_fmap; [by rewrite Ha|by rewrite Hb, Hbase]. }
    apply (NoDup_lookup _ i j gj Hndp);
      rewrite list_lookup_fmap; [by rewrite Hpi|by rewrite Hpj]. }
  split.
  { intros Hin. apply list_elem_of_fmap in Hin as (file & Hname & Hin).
    apply list_elem_of_lookup in Hin as [i Hi].
    destruct (Hfile i file Hi) as (g & r & t & _ & _ & -> & Ht & _).
    pose proof (page_file_name_length g r t Ht) as Hlong.
    rewrite <- Hname in Hlong. change (length (py "index.html")) with 10%nat in Hlong.
    lia. }
  split.
  { intros Hplain. apply Forall_forall. intros name Hin.
    apply list_elem_of_fmap in Hin as (file & -> & Hin).
    apply list_elem_of_lookup in Hin as [i Hi].
    destruct (Hfile i file Hi) as (g & r & t & Hp & _ & -> & _ & Ht).
    apply page_file_name_plain; [done|].
    apply (proj1 (Forall_forall _ _) Hplain), (Hgiver g r).
    by eapply list_elem_of_lookup_2. }
  split.
  { intros giver receiver Hm. apply Hpairs in Hm.
    apply list_elem_of_lookup in Hm as [i Hi].
    destruct (lookup_lt_is_Some_2 tokens i) as [t Ht].
    { rewrite Hlen. by eapply lookup_lt_Some. }
    exists t. apply list_elem_of_lookup. exists i.
    apply lookup_zip_with_Some. by exists (giver, receiver), t. }
  split; [|done].
  intros file Hin. apply list_elem_of_lookup in Hin as [i Hi].
  destruct (Hfile i file Hi) as (g & r & t & Hp & _ & -> & Ht & _).
  exists g, r, t. split; [|done]. apply Hpairs.
  by eapply list_elem_of_lookup_2.
Qed.
End MainTheorems.

Lemma pair_snd {A B} (a : A) (b : B) (p : A * B) : (a, b) = p → b = p.2.
Proof. by intros <-. Qed.

Lemma page_file_content {U : UnicodeData} (giver receiver token : str) :
  (page_file giver receiver token).2
  = create_individual_page giver receiver token.
Proof. unfold page_file. cbn [snd]. reflexivity. Qed.

Section MainOnParticipants.
Context {G : Type} `{Random G} `{!RandomLaws G} {U : UnicodeData}.
Variable items : gmap str str → list (str * str).
Hypothesis items_perm : ∀ m, items m ≡ₚ map_to_list m.
Variable write_ok : list (str * option str) → str * option str → bool.

(** A pair of a returned mapping: two names of the list, not the same. *)
Lemma matches_entry (participants : loc) (l : list str) (σ σ1 : state G)
    (matches : gmap str str) (giver receiver : str) :
  heap σ !! participants = Some l →
  generate_matches participants σ = (Return matches, σ1) →
  matches !! giver = Some receiver →
  giver ∈ l ∧ receiver ∈ l ∧ giver ≠ receiver.
Proof.
  intros Hl Hgm Hm.
  destruct (generate_matches_store_run _ _ _ _ _ Hl Hgm)
    as (rs' & Hperm & _ & Hv & Hf).
  destruct (filled_values _ _ _ _ _ Hf giver receiver Hm) as [Hempty|[Hg Hr]].
  { by rewrite lookup_empty in Hempty. }
  split; [done|]. split; [by rewrite <- Hperm|].
  destruct (filled_lookup _ _ _ _ _ Hv Hf giver) as [Hin _].
  destruct (Hin Hg) as (r & Hr' & Hne). congruence.
Qed.

(** X16. When the matching succeeds on the participants of the module,
    every page [main] writes is the page of a pair of the mapping, whose
    giver and receiver differ; it names the giver once, the receiver once
    and no other participant.  This holds of what is written whether
    [main] ends normally or stops at a write the file system refuses;
    after the pages nothing is written but [index.html], and when the
    file system takes the writes [main] ends normally with [index.html]
    written last. *)
Theorem main_privacy (participants : loc) (out : output) (σ σ1 : state G)
    (matches : gmap str str) :
  heap σ !! participants = Some PARTICIPANTS →
  generate_matches participants σ = (Return matches, σ1) →
  ∃ result pages rest out' σ',
    main items write_ok participants out σ = (result, out', σ')
    ∧ written out' = written out ++ pages ++ rest
    ∧ (rest = [] ∨ rest = [(py "index.html", Some create_landing_page)])
    ∧ (∀ name content, (name, content) ∈ pages →
         ∃ giver receiver html,
           content = Some html
           ∧ matches !! giver = Some receiver
           ∧ giver ≠ receiver
           ∧ occurrences giver html = 1%nat
           ∧ occurrences receiver html = 1%nat
           ∧ ∀ other, other ∈ PARTICIPANTS → other ≠ giver →
               other ≠ receiver → occurrences other html = 0%nat)
    ∧ (accepts write_ok PARTICIPANTS →
       result = Done ()
       ∧ rest = [(py "index.html", Some create_landing_page)]).
Proof.
  intros Hl Hgm.
  destruct (main_pairs items items_perm _ _ _ _ _ Hl participants_distinct Hgm)
    as (_ & _ & Hpairs).
  assert (Hpage : ∀ (visited : list (str * str)) tokens name content,
            (∀ pair, pair ∈ visited → pair ∈ items matches) →
            (name, content) ∈ page_files visited tokens →
            ∃ giver receiver html,
              content = Some html
              ∧ matches !! giver = Some receiver
              ∧ giver ≠ receiver
              ∧ occurrences giver html = 1%nat
              ∧ occurrences receiver html = 1%nat
              ∧ ∀ other, other ∈ PARTICIPANTS → other ≠ giver →
                  other ≠ receiver → occurrences other html = 0%nat).
  { intros visited tokens name content Hsub Hin.
    apply list_elem_of_lookup in Hin as [i Hi].
    apply lookup_zip_with_Some in Hi as ([g r] & t & Heq & Hp & _).
    apply list_elem_of_lookup_2, Hsub, Hpairs in Hp.
    destruct (matches_entry _ _ _ _ _ _ _ Hl Hgm Hp) as (Hg & Hr & Hne).
    destruct (page_names g r t Hg Hr Hne) as (html & Hhtml & Hgiver & Hocc).
    exists g, r, html.
    apply pair_snd in Heq. rewrite page_file_content in Heq. subst content.
    split; [exact Hhtml|]. split; [exact Hp|]. split; [exact Hne|].
    split; [exact Hgiver|exact Hocc]. }
  destruct (main_cases items write_ok participants out σ σ1 matches Hgm)
    as (tokens & σ' & _ & _ & _ & Hcases).
  cbn zeta in Hcases.
  destruct Hcases as [[_ Hrun]|[(_ & Hfail & Hrun)
    |(before & g & r & rest & token & Hbefore & _ & Htoken & Htokens & Hfail
      & Hrun)]].
  - eexists _, (page_files (items matches) tokens), _, _, σ'.
    split; [exact Hrun|]. cbn [written]. split; [done|].
    split; [by right|]. split; [|done].
    intros name content. by apply Hpage.
  - eexists _, (page_files (items matches) tokens), [], _, σ'.
    split; [exact Hrun|]. cbn [written]. split; [by rewrite app_nil_r|].
    split; [by left|]. split.
    + intros name content. by apply Hpage.
    + intros [_ Hindex]. by rewrite Hindex in Hfail.
  - eexists _, (page_files before tokens), [], _, σ'.
    split; [exact Hrun|]. cbn [written]. split; [by rewrite app_nil_r|].
    split; [by left|]. split.
    + intros name content. apply Hpage. intros pair Hin.
      rewrite Hbefore. apply elem_of_app. by left.
    + intros [Hpages _]. rewrite Hpages in Hfail; [done| |done|done].
      assert (Hin : (g, r) ∈ items matches).
      { rewrite Hbefore. apply elem_of_app. right. by left. }
      apply Hpairs in Hin.
      by destruct (matches_entry _ _ _ _ _ _ _ Hl Hgm Hin).
Qed.

(** X17. When the matching succeeds on distinct participants and the
    file system takes every write [main] attempts, what [main] prints
    last before its closing line is the summary: one line per
    participant, in strictly ascending order of the names, made of the
    name padded to 25, an arrow and the address of the file written for
    that participant. *)
Theorem main_summary_sorted (participants : loc) (l : list str)
    (out : output) (σ σ1 : state G) (matches : gmap str str) :
  heap σ !! participants = Some l → NoDup l →
  accepts write_ok l →
  generate_matches participants σ = (Return matches, σ1) →
  ∃ lines rows out' σ',
    main items write_ok participants out σ = (Done (), out', σ')
    ∧ printed out'
      = printed out ++ lines
          ++ ((λ row, summary_line row.1 row.2) <$> rows) ++ [last_line]
    ∧ rows.*1 ≡ₚ l
    ∧ Sorted (λ a b, str_lt a b = true) rows.*1
    ∧ ∀ giver filename, (giver, filename) ∈ rows →
        ∃ receiver token,
          matches !! giver = Some receiver
          ∧ filename = (page_file giver receiver token).1
          ∧ page_file giver receiver token ∈ written out'.
Proof.
  intros Hl Hnd [Hpages Hindex] Hgm.
  destruct (main_pairs items items_perm _ _ _ _ _ Hl Hnd Hgm)
    as (Hkeys & _ & Hpairs).
  destruct (main_run items write_ok participants out σ σ1 matches Hgm)
    as (tokens & σ' & Hrun & Hlen & _); [|done|].
  { intros history giver receiver token Hin Htoken Htokens.
    apply Hpages; [|done|done]. rewrite <- Hkeys.
    apply list_elem_of_fmap. by exists (giver, receiver). }
  cbn zeta in Hrun. set (pairs := items matches) in *.
  assert (Hndp : NoDup pairs.*1) by (by rewrite Hkeys).
  destruct (url_mapping_entries pairs tokens Hlen Hndp) as [Hdom Hentries].
  cbn zeta in Hdom, Hentries.
  set (url_mapping := foldl _ _ _) in *.
  set (keys := sorted (map_to_list url_mapping).*1) in *.
  assert (Hkey : ∀ k, k ∈ keys →
            ∃ i r t, pairs !! i = Some (k, r) ∧ tokens !! i = Some t
              ∧ url_mapping !! k = Some (url_entry (k, r) t).2).
  { intros k Hk. unfold keys in Hk. rewrite sorted_perm in Hk.
    apply list_elem_of_fmap in Hk as ([k' info] & -> & Hk).
    apply elem_of_map_to_list in Hk.
    destruct (Hentries _ _ Hk) as (i & r & t & Hp & Ht & ->).
    by exists i, r, t. }
  assert (Hlines : summary_of url_mapping <$> keys
            = (λ row, summary_line row.1 row.2)
                <$> ((λ k, (k, filename_of url_mapping k)) <$> keys)).
  { rewrite <- list_fmap_compose. apply list_fmap_ext. intros n k Hk.
    apply list_elem_of_lookup_2, Hkey in Hk as (i & r & t & _ & _ & Hk).
    unfold compose. cbn [fst snd].
    unfold summary_of, filename_of, summary_line. rewrite Hk.
    cbn [url_entry snd info_url info_filename]. reflexivity. }
  assert (Hfst : ((λ k, (k, filename_of url_mapping k)) <$> keys).*1 = keys).
  { rewrite <- list_fmap_compose. rewrite (list_fmap_ext _ id keys) by done.
    apply list_fmap_id. }
  exists (opening_lines
          ++ pages_heading :: (created_line <$> (page_files pairs tokens).*1)
          ++ closing_lines (size matches)),
    ((λ k, (k, filename_of url_mapping k)) <$> keys).
  eexists _, σ'. split; [exact Hrun|]. cbn [printed written].
  split; [|split; [|split]].
  - rewrite Hlines. rewrite <- !(assoc_L (++)). cbn [app].
    rewrite <- !(assoc_L (++)). reflexivity.
  - rewrite Hfst. unfold keys. by rewrite sorted_perm, Hdom.
  - rewrite Hfst. apply sorted_ascending, NoDup_fst_map_to_list.
  - intros giver filename Hin.
    apply list_elem_of_fmap in Hin as (k & [= -> ->] & Hk).
    destruct (Hkey k Hk) as (i & r & t & Hp & Ht & Hum).
    exists r, t. split; [apply Hpairs; by eapply list_elem_of_lookup_2|].
    split; [unfold filename_of; by rewrite Hum|].
    apply elem_of_app. right. apply elem_of_app. left.
    apply list_elem_of_lookup. exists i.
    apply lookup_zip_with_Some. by exists (k, r), t.
Qed.
End MainOnParticipants.

(** ** Runs of [main] on the replayed source *)

Lemma three_distinct : NoDup three.
Proof. apply (bool_decide_unpack (NoDup three)). vm_compute. exact I. Qed.

(** The directory without subdirectories takes the writes of [main] when
    no normalised name has a slash. *)
Lemma accepts_flat_directory {U : UnicodeData} (givers : list str) :
  Forall (λ giver, 0x2F ∉ generate_filename giver) givers →
  accepts flat_directory givers.
Proof.
  intros Hplain. split.
  - intros history giver receiver token Hin _ Htoken.
    apply bool_decide_eq_true. apply page_file_name_plain; [done|].
    by apply (proj1 (Forall_forall _ _) Hplain).
  - intros history. apply bool_decide_eq_true. cbn [fst].
    intros Hin%list_elem_of_In. vm_compute in Hin.
    repeat destruct Hin as [[=]|Hin]. done.
Qed.

Lemma three_plain :
  Forall (λ giver, 0x2F ∉ generate_filename giver) three.
Proof.
  apply (bool_decide_unpack
           (Forall (λ giver, 0x2F ∉ generate_filename giver) three)).
  vm_compute. exact I.
Qed.

Lemma participants_plain :
  Forall (λ giver, 0x2F ∉ generate_filename giver) PARTICIPANTS.
Proof.
  apply (bool_decide_unpack
           (Forall (λ giver, 0x2F ∉ generate_filename giver) PARTICIPANTS)).
  vm_compute. exact I.
Qed.

Lemma main_page_filename_injective_witness :
  generate_filename (py "Annie") = generate_filename (py "annie").
Proof.
  apply (main_page_filename_injective (G := list nat)
           (py "Annie") (py "Oscar") (py "annie") (py "Axel")
           (py "annie-aaaaaaaa.html")
           (create_individual_page (py "Annie") (py "Oscar") (py "aaaaaaaa"))
           (create_individual_page (py "annie") (py "Axel") (py "aaaaaaaa"))
           (State [] [] 0) (State [] [] 0) (State [] [] 0) (State [] [] 0)).
  - vm_compute. reflexivity.
  - vm_compute. reflexivity.
Defined.


Lemma main_exhausted_witness :
  main map_to_list flat_directory 0 (Output [] []) st_identity
  = (Failed (Raised (Exception_ (exhausted_message 1000))),
     Output [] ([] ++ opening_lines),
     (generate_matches 0 st_identity).2).
Proof.
  apply (main_exhausted (G := list nat) flat_directory map_to_list 0
           (Output [] []) st_identity).
  vm_compute. reflexivity.
Defined.

Lemma main_files_witness :
  ∃ pages out' σ',
    main map_to_list flat_directory 0 (Output [] []) st_three
    = (Done (), out', σ')
    ∧ written out' = pages ++ [(py "index.html", Some create_landing_page)]
    ∧ length pages = 3%nat
    ∧ NoDup pages.*1
    ∧ Forall (λ name, 0x2F ∉ name) pages.*1.
Proof.
  destruct (main_files (G := list nat) flat_directory map_to_list
              (λ m, reflexivity _)
              0 three (Output [] []) st_three st_three' matches_three)
    as (pages & out' & σ' & Hrun & Hw & Hlen & Hnd & _ & Hplain & _).
  - reflexivity.
  - exact three_distinct.
  - apply (bool_decide_unpack (NoDup (generate_filename <$> three))).
    vm_compute. exact I.
  - exact (accepts_flat_directory three three_plain).
  - exact run_three.
  - exists pages, out', σ'. split; [exact Hrun|]. split; [exact Hw|].
    split; [exact Hlen|]. split; [exact Hnd|]. exact (Hplain three_plain).
Defined.

Lemma main_privacy_witness :
  ∃ pages out' σ',
    main map_to_list flat_directory 0 (Output [] []) st_participants
    = (Done (), out', σ')
    ∧ written out' = pages ++ [(py "index.html", Some create_landing_page)]
    ∧ ∀ name content, (name, content) ∈ pages →
        ∃ giver receiver html,
          content = Some html
          ∧ matches_participants !! giver = Some receiver
          ∧ giver ≠ receiver
          ∧ occurrences giver html = 1%nat
          ∧ occurrences receiver html = 1%nat
          ∧ ∀ other, other ∈ PARTICIPANTS → other ≠ giver →
              other ≠ receiver → occurrences other html = 0%nat.
Proof.
  destruct (main_privacy (G := list nat) map_to_list (λ m, reflexivity _)
              flat_directory 0 (Output [] []) st_participants
              (generate_matches 0 st_participants).2 matches_participants)
    as (result & pages & rest & out' & σ' & Hrun & Hw & _ & Hpages & Hdone).
  - reflexivity.
  - vm_compute. reflexivity.
  - destruct (Hdone (accepts_flat_directory PARTICIPANTS participants_plain))
      as [-> ->].
    exists pages, out', σ'. split; [exact Hrun|]. split; [exact Hw|].
    exact Hpages.
Defined.

Lemma main_summary_sorted_witness :
  ∃ lines rows out' σ',
    main map_to_list flat_directory 0 (Output [] []) st_three
    = (Done (), out', σ')
    ∧ printed out'
      = lines ++ ((λ row, summary_line row.1 row.2) <$> rows) ++ [last_line]
    ∧ rows.*1 ≡ₚ three
    ∧ Sorted (λ a b, str_lt a b = true) rows.*1.
Proof.
  destruct (main_summary_sorted (G := list nat) map_to_list
              (λ m, reflexivity _) flat_directory 0 three (Output [] [])
              st_three st_three' matches_three)
    as (lines & rows & out' & σ' & Hrun & Hp & Hperm & Hs & _).
  - reflexivity.
  - exact three_distinct.
  - exact (accepts_flat_directory three three_plain).
  - exact run_three.
  - exists lines, rows, out', σ'. split; [exact Hrun|]. split; [exact Hp|].
    split; [exact Hperm|exact Hs].
Defined.

(** A name with a slash, in the directory without subdirectories: the
    write of that page is refused and [main] stops there, before
    [index.html]. *)
Example main_refused_run :
  let run :=
    main map_to_list flat_directory 0 (Output [] [])
      (State [[py "a/b"; py "c"]] ([] : list nat) 0) in
  run.1.1 = Failed (OSError (py "a/b-aaaaaaaa.html"))
  ∧ Forall (λ file, file.1 = py "c-aaaaaaaa.html") (written run.1.2).
Proof.
  vm_compute. split; [reflexivity|].
  repeat constructor.
Qed.
